(** * NVIC driver for the STM32F446RE: embedding and verification

    The development follows [Src/NVIC_Program.c] and [Inc/NVIC_Interface.h].
    The interrupt identifiers are the enumeration [IRQn_Type]; the eight
    driver functions are written in a small state-and-error monad over the
    memory-mapped register block [NVIC].  A bus access whose array index
    lies outside the register array is undefined behaviour in C and is the
    error of the monad. *)

From Stdlib Require Import ZArith Lia Bool.
From stdpp Require Import list.

Local Open Scope Z_scope.

(** ** Fixed-width integers *)

(** [(uint8_t) x] *)
Definition u8 (x : Z) : Z := x mod 2 ^ 8.

(** [(uint32_t) x]; [unsigned int] and [unsigned long] are 32 bits wide on
    the Cortex-M4 target. *)
Definition u32 (x : Z) : Z := x mod 2 ^ 32.

(** ** The interrupt identifiers ([Inc/NVIC_Interface.h], lines 27-116) *)

Inductive IRQn_Type : Set :=
  | WWDG | PVD | TAMP_STAMP | RTC_WKUP | FLASH | RCC | EXTI0 | EXTI1
  | EXTI2 | EXTI3 | EXTI4 | DMA1_Stream0 | DMA1_Stream1 | DMA1_Stream2
  | DMA1_Stream3 | DMA1_Stream4 | DMA1_Stream5 | DMA1_Stream6 | ADC
  | CAN1_TX | CAN1_RX0 | CAN1_RX1 | CAN1_SCE | EXTI9_5 | TIM1_BRK_TIM9
  | TIM1_UP_TIM10 | TIM1_TRG_COM_TIM11 | TIM1_CC | TIM2 | TIM3 | TIM4
  | I2C1_EV | I2C1_ER | I2C2_EV | I2C2_ER | SPI1 | SPI2 | USART1 | USART2
  | USART3 | EXTI5_10 | RTC_Alarm | OTG_FS_WKUP | TIM8_BRK_TIM12
  | TIM8_UP_TIM13 | TIM8_TRG_COM_TIM14 | TIM8_CC | DMA1_Stream7 | FMC
  | SDIO | TIM5 | SPI3 | UART4 | UART5 | TIM6_DAC | TIM7 | DMA2_Stream0
  | DMA2_Stream1 | DMA2_Stream2 | DMA2_Stream3 | DMA2_Stream4 | CAN2_TX
  | CAN2_RX0 | CAN2_RX1 | CAN2_SCE | OTG_FS | DMA2_Stream5 | DMA2_Stream6
  | DMA2_Stream7 | USART6 | I2C3_EV | I2C3_ER | OTG_HS_EP1_OUT
  | OTG_HS_EP1_IN | OTG_HS_WKUP | OTG_HS | DCMI | FPU | SPI4 | SAI1 | SAI2
  | QuadSPI | HDMI_CEC | SPDIF_Rx | FMPI2C1 | FMPI2C1_error.

Definition IRQn_value (IRQn : IRQn_Type) : Z :=
  match IRQn with
  | WWDG => 0 | PVD => 1 | TAMP_STAMP => 2 | RTC_WKUP => 3 | FLASH => 4
  | RCC => 5 | EXTI0 => 6 | EXTI1 => 7 | EXTI2 => 8 | EXTI3 => 9
  | EXTI4 => 10 | DMA1_Stream0 => 11 | DMA1_Stream1 => 12
  | DMA1_Stream2 => 13 | DMA1_Stream3 => 14 | DMA1_Stream4 => 15
  | DMA1_Stream5 => 16 | DMA1_Stream6 => 17 | ADC => 18 | CAN1_TX => 19
  | CAN1_RX0 => 20 | CAN1_RX1 => 21 | CAN1_SCE => 22 | EXTI9_5 => 23
  | TIM1_BRK_TIM9 => 24 | TIM1_UP_TIM10 => 25 | TIM1_TRG_COM_TIM11 => 26
  | TIM1_CC => 27 | TIM2 => 28 | TIM3 => 29 | TIM4 => 30 | I2C1_EV => 31
  | I2C1_ER => 32 | I2C2_EV => 33 | I2C2_ER => 34 | SPI1 => 35 | SPI2 => 36
  | USART1 => 37 | USART2 => 38 | USART3 => 39 | EXTI5_10 => 40
  | RTC_Alarm => 41 | OTG_FS_WKUP => 42 | TIM8_BRK_TIM12 => 43
  | TIM8_UP_TIM13 => 44 | TIM8_TRG_COM_TIM14 => 45 | TIM8_CC => 46
  | DMA1_Stream7 => 47 | FMC => 48 | SDIO => 49 | TIM5 => 50 | SPI3 => 51
  | UART4 => 52 | UART5 => 53 | TIM6_DAC => 54 | TIM7 => 55
  | DMA2_Stream0 => 56 | DMA2_Stream1 => 57 | DMA2_Stream2 => 58
  | DMA2_Stream3 => 59 | DMA2_Stream4 => 60 | CAN2_TX => 63
  | CAN2_RX0 => 64 | CAN2_RX1 => 65 | CAN2_SCE => 66 | OTG_FS => 67
  | DMA2_Stream5 => 68 | DMA2_Stream6 => 69 | DMA2_Stream7 => 70
  | USART6 => 71 | I2C3_EV => 72 | I2C3_ER => 73 | OTG_HS_EP1_OUT => 74
  | OTG_HS_EP1_IN => 75 | OTG_HS_WKUP => 76 | OTG_HS => 77 | DCMI => 78
  | FPU => 81 | SPI4 => 84 | SAI1 => 87 | SAI2 => 91 | QuadSPI => 92
  | HDMI_CEC => 93 | SPDIF_Rx => 94 | FMPI2C1 => 95 | FMPI2C1_error => 96
  end.

(** The largest discriminant of the enumeration. *)
Definition IRQn_MAX : Z := IRQn_value FMPI2C1_error.

(** ** The register block *)

(** Modelled from the spec: the register block [NVIC] is declared in
    [STM32F446xx.h], which is not among the sources.  The spec (section 3)
    gives its behaviour: the enable state is one bit-array seen through two
    write-one register arrays (a one written to [ISER] sets the bit, a one
    written to [ICER] clears the same bit), the pending state likewise
    through [ISPR] and [ICPR] with the state read back from [ISPR], the
    active bit-array [IABR] is read-only, and [IPR] holds four 8-bit
    priority fields per 32-bit word.  The number of words of each array is
    not fixed here: it is the length of the lists. *)
Record NVIC_RegDef_t : Type := mkNVIC {
  nvic_enable : list Z;
  nvic_pending : list Z;
  nvic_active : list Z;
  nvic_ipr : list Z
}.

(** The registers the driver addresses, [NVIC->ISER[n]] and so on. *)
Inductive NVIC_reg : Set :=
  | ISER (n : Z) | ICER (n : Z) | ISPR (n : Z) | ICPR (n : Z)
  | IABR (n : Z) | IPR (n : Z).

(** Modelled from the spec: a bus read of a register of the block. *)
Definition reg_read (s : NVIC_RegDef_t) (r : NVIC_reg) : option Z :=
  match r with
  | ISER n | ICER n => nvic_enable s !! Z.to_nat n
  | ISPR n | ICPR n => nvic_pending s !! Z.to_nat n
  | IABR n => nvic_active s !! Z.to_nat n
  | IPR n => nvic_ipr s !! Z.to_nat n
  end.

(** Modelled from the spec: a bus write of [v] to a register of the block.
    The set and clear arrays act on the ones of [v] only; a write to the
    read-only [IABR] is ignored; [IPR] stores the word.  (On the reference
    hardware the lower nibble of each priority field reads as zero; the
    driver writes back the lower nibbles it has read, so a block whose
    lower nibbles are zero behaves there as it does here.) *)
Definition reg_write (s : NVIC_RegDef_t) (r : NVIC_reg) (v : Z)
  : option NVIC_RegDef_t :=
  match r with
  | ISER n =>
      match nvic_enable s !! Z.to_nat n with
      | Some w =>
          Some (mkNVIC (<[Z.to_nat n := Z.lor w v]> (nvic_enable s))
                       (nvic_pending s) (nvic_active s) (nvic_ipr s))
      | None => None
      end
  | ICER n =>
      match nvic_enable s !! Z.to_nat n with
      | Some w =>
          Some (mkNVIC (<[Z.to_nat n := Z.ldiff w v]> (nvic_enable s))
                       (nvic_pending s) (nvic_active s) (nvic_ipr s))
      | None => None
      end
  | ISPR n =>
      match nvic_pending s !! Z.to_nat n with
      | Some w =>
          Some (mkNVIC (nvic_enable s)
                       (<[Z.to_nat n := Z.lor w v]> (nvic_pending s))
                       (nvic_active s) (nvic_ipr s))
      | None => None
      end
  | ICPR n =>
      match nvic_pending s !! Z.to_nat n with
      | Some w =>
          Some (mkNVIC (nvic_enable s)
                       (<[Z.to_nat n := Z.ldiff w v]> (nvic_pending s))
                       (nvic_active s) (nvic_ipr s))
      | None => None
      end
  | IABR n =>
      match nvic_active s !! Z.to_nat n with
      | Some _ => Some s
      | None => None
      end
  | IPR n =>
      match nvic_ipr s !! Z.to_nat n with
      | Some _ =>
          Some (mkNVIC (nvic_enable s) (nvic_pending s) (nvic_active s)
                       (<[Z.to_nat n := v]> (nvic_ipr s)))
      | None => None
      end
  end.

(** ** The monad of register accesses *)

Definition nvic (A : Type) : Type :=
  NVIC_RegDef_t -> option (A * NVIC_RegDef_t).

Definition ret {A : Type} (a : A) : nvic A := fun s => Some (a, s).

Definition bind {A B : Type} (m : nvic A) (k : A -> nvic B) : nvic B :=
  fun s => match m s with
           | Some (a, s') => k a s'
           | None => None
           end.

Definition load (r : NVIC_reg) : nvic Z :=
  fun s => match reg_read s r with
           | Some v => Some (v, s)
           | None => None
           end.

Definition store (r : NVIC_reg) (v : Z) : nvic unit :=
  fun s => match reg_write s r v with
           | Some s' => Some (tt, s')
           | None => None
           end.

Declare Scope nvic_scope.
Delimit Scope nvic_scope with nvic.
Notation "'let*' x := m 'in' k" := (bind m (fun x => k))
  (at level 10, x name, m at level 100, k at level 200) : nvic_scope.
Notation "m >> k" := (bind m (fun _ => k))
  (at level 65, right associativity) : nvic_scope.
Local Open Scope nvic_scope.

(** ** The driver ([Src/NVIC_Program.c]) *)

Definition NVIC_EnableIRQ (IRQn : IRQn_Type) : nvic unit :=
  let RegNum := u8 (IRQn_value IRQn / 32) in
  let BitNum := u8 (IRQn_value IRQn mod 32) in
  store (ISER RegNum) (u32 (Z.shiftl 1 BitNum)).

Definition NVIC_DisableIRQ (IRQn : IRQn_Type) : nvic unit :=
  let RegNum := u8 (IRQn_value IRQn / 32) in
  let BitNum := u8 (IRQn_value IRQn mod 32) in
  store (ICER RegNum) (u32 (Z.shiftl 1 BitNum)).

Definition NVIC_SetPendingIRQ (IRQn : IRQn_Type) : nvic unit :=
  let RegNum := u8 (IRQn_value IRQn / 32) in
  let BitNum := u8 (IRQn_value IRQn mod 32) in
  store (ISPR RegNum) (u32 (Z.shiftl 1 BitNum)).

Definition NVIC_ClearPendingIRQ (IRQn : IRQn_Type) : nvic unit :=
  let RegNum := u8 (IRQn_value IRQn / 32) in
  let BitNum := u8 (IRQn_value IRQn mod 32) in
  store (ICPR RegNum) (u32 (Z.shiftl 1 BitNum)).

(** [PendingStatus] is a [uint8_t]: the masked word is cut to its low
    eight bits by the assignment. *)
Definition NVIC_GetPendingIRQ (IRQn : IRQn_Type) : nvic Z :=
  let RegNum := u8 (IRQn_value IRQn / 32) in
  let BitNum := u8 (IRQn_value IRQn mod 32) in
  let* w := load (ISPR RegNum) in
  let PendingStatus := u8 (Z.land w (u32 (Z.shiftl 1 BitNum))) in
  ret PendingStatus.

(** The register is written in the [else] branch only; the assignment
    [priority = 15U] of the other branch is followed by no access. *)
Definition NVIC_SetPriority (IRQn : IRQn_Type) (priority : Z) : nvic unit :=
  if 15 <? priority then
    let priority := 15 in
    ret tt
  else
    let RegIndex := u8 (IRQn_value IRQn / 4) in
    let PriorityPos := u8 ((IRQn_value IRQn mod 4) * 8) in
    (let* w := load (IPR RegIndex) in
     store (IPR RegIndex)
           (u32 (Z.land w (u32 (Z.lnot (u32 (Z.shiftl 0xF0 PriorityPos))))))) >>
    (let* w := load (IPR RegIndex) in
     store (IPR RegIndex)
           (u32 (Z.lor w (u32 (Z.shiftl (Z.land priority 0xF)
                                        (PriorityPos + 4)))))).

Definition NVIC_GetPriority (IRQn : IRQn_Type) : nvic Z :=
  let RegIndex := u8 (IRQn_value IRQn / 4) in
  let PriorityPos := u8 ((IRQn_value IRQn mod 4) * 8) in
  let* w := load (IPR RegIndex) in
  let priority := Z.land (Z.shiftr w (PriorityPos + 4)) 0x0F in
  ret priority.

Definition NVIC_GetActive (IRQn : IRQn_Type) : nvic Z :=
  let RegNum := u8 (IRQn_value IRQn / 32) in
  let BitNum := u8 (IRQn_value IRQn mod 32) in
  let* w := load (IABR RegNum) in
  let isActive :=
    u8 (if Z.land w (u32 (Z.shiftl 1 BitNum)) =? 0 then 0 else 1) in
  ret isActive.

(** ** Observations and test doubles *)

(** The register arrays are long enough for every identifier of the
    enumeration: one bit per identifier in the bit-arrays, one byte per
    identifier in the priority array. *)
Definition covers (s : NVIC_RegDef_t) : Prop :=
  (Z.to_nat (IRQn_MAX / 32) < length (nvic_enable s))%nat /\
  (Z.to_nat (IRQn_MAX / 32) < length (nvic_pending s))%nat /\
  (Z.to_nat (IRQn_MAX / 32) < length (nvic_active s))%nat /\
  (Z.to_nat (IRQn_MAX / 4) < length (nvic_ipr s))%nat.

(** The location of an identifier, as the spec writes it:
    [(regIndex, bitPos) = (id/32, id%32)] in the bit-arrays and
    [(regIndex, bytePos) = (id/4, (id%4)*8)] in the priority array. *)
Definition regIndex (IRQn : IRQn_Type) : Z := IRQn_value IRQn / 32.
Definition bitPos (IRQn : IRQn_Type) : Z := IRQn_value IRQn mod 32.
Definition prioIndex (IRQn : IRQn_Type) : Z := IRQn_value IRQn / 4.
Definition bytePos (IRQn : IRQn_Type) : Z := (IRQn_value IRQn mod 4) * 8.

(** Bit [k] of word [n] of a bit-array, as a hardware-level read shows it. *)
Definition bit_at (l : list Z) (n k : Z) : bool :=
  match l !! Z.to_nat n with
  | Some w => Z.testbit w k
  | None => false
  end.

(** A simulated register block with the array sizes of the ARMv7-M NVIC
    (eight words per bit-array, sixty priority words), every word zero. *)
Definition NVIC_reset : NVIC_RegDef_t :=
  mkNVIC (replicate 8 0) (replicate 8 0) (replicate 8 0) (replicate 60 0).

(** A sequence of calls of the driver, results dropped. *)
Inductive NVIC_call : Type :=
  | CallEnableIRQ (IRQn : IRQn_Type)
  | CallDisableIRQ (IRQn : IRQn_Type)
  | CallSetPendingIRQ (IRQn : IRQn_Type)
  | CallClearPendingIRQ (IRQn : IRQn_Type)
  | CallGetPendingIRQ (IRQn : IRQn_Type)
  | CallSetPriority (IRQn : IRQn_Type) (priority : Z)
  | CallGetPriority (IRQn : IRQn_Type)
  | CallGetActive (IRQn : IRQn_Type).

Definition call (c : NVIC_call) : nvic unit :=
  match c with
  | CallEnableIRQ i => NVIC_EnableIRQ i
  | CallDisableIRQ i => NVIC_DisableIRQ i
  | CallSetPendingIRQ i => NVIC_SetPendingIRQ i
  | CallClearPendingIRQ i => NVIC_ClearPendingIRQ i
  | CallGetPendingIRQ i => let* _ := NVIC_GetPendingIRQ i in ret tt
  | CallSetPriority i p => NVIC_SetPriority i p
  | CallGetPriority i => let* _ := NVIC_GetPriority i in ret tt
  | CallGetActive i => let* _ := NVIC_GetActive i in ret tt
  end.

Fixpoint calls (cs : list NVIC_call) : nvic unit :=
  match cs with
  | [] => ret tt
  | c :: cs' => call c >> calls cs'
  end.

(** The word [NVIC_SetPriority] leaves in a priority register that held
    [w]: the two read-modify-write statements, one after the other. *)
Definition IPR_clear (w pos : Z) : Z :=
  u32 (Z.land w (u32 (Z.lnot (u32 (Z.shiftl 0xF0 pos))))).

Definition IPR_set (w pos priority : Z) : Z :=
  u32 (Z.lor w (u32 (Z.shiftl (Z.land priority 0xF) (pos + 4)))).

(** ** Further observations *)

(** The word a call [NVIC_SetPriority IRQn priority] leaves in the
    priority register of [IRQn] where it found [w]. *)
Definition IPR_after (IRQn : IRQn_Type) (priority w : Z) : Z :=
  if 15 <? priority then w
  else IPR_set (IPR_clear w (bytePos IRQn)) (bytePos IRQn) priority.

(** The calls that address the priority field, the enable bit and the
    pending bit of the identifier [i]. *)
Definition sets_priority_of (i : IRQn_Type) (c : NVIC_call) : Prop :=
  match c with
  | CallSetPriority j _ => j = i
  | _ => False
  end.

Definition switches_enable_of (i : IRQn_Type) (c : NVIC_call) : Prop :=
  match c with
  | CallEnableIRQ j | CallDisableIRQ j => j = i
  | _ => False
  end.

Definition switches_pending_of (i : IRQn_Type) (c : NVIC_call) : Prop :=
  match c with
  | CallSetPendingIRQ j | CallClearPendingIRQ j => j = i
  | _ => False
  end.

(** A value of a 32-bit register, and a register block of such values. *)
Definition word32 (w : Z) : Prop := 0 <= w < 2 ^ 32.

Definition block32 (s : NVIC_RegDef_t) : Prop :=
  Forall word32 (nvic_enable s) /\ Forall word32 (nvic_pending s) /\
  Forall word32 (nvic_active s) /\ Forall word32 (nvic_ipr s).

(** ** Bits of the machine words *)

Lemma testbit_u32 (x k : Z) :
  Z.testbit (u32 x) k = (k <? 32) && Z.testbit x k.
Proof.
  unfold u32. destruct (Z.ltb_spec k 32) as [Hlt | Hge]; cbn [andb].
  - destruct (Z.neg_nonneg_cases k) as [Hn | Hp].
    + now rewrite !Z.testbit_neg_r.
    + now apply Z.mod_pow2_bits_low.
  - apply Z.mod_pow2_bits_high. lia.
Qed.

Lemma testbit_u8 (x k : Z) :
  Z.testbit (u8 x) k = (k <? 8) && Z.testbit x k.
Proof.
  unfold u8. destruct (Z.ltb_spec k 8) as [Hlt | Hge]; cbn [andb].
  - destruct (Z.neg_nonneg_cases k) as [Hn | Hp].
    + now rewrite !Z.testbit_neg_r.
    + now apply Z.mod_pow2_bits_low.
  - apply Z.mod_pow2_bits_high. lia.
Qed.

Lemma testbit_shiftl (a n k : Z) :
  Z.testbit (Z.shiftl a n) k = (0 <=? k) && Z.testbit a (k - n).
Proof.
  destruct (Z.leb_spec 0 k) as [Hp | Hn]; cbn [andb].
  - now apply Z.shiftl_spec.
  - now apply Z.testbit_neg_r.
Qed.

Lemma testbit_shiftr (a n k : Z) :
  Z.testbit (Z.shiftr a n) k = (0 <=? k) && Z.testbit a (k + n).
Proof.
  destruct (Z.leb_spec 0 k) as [Hp | Hn]; cbn [andb].
  - now apply Z.shiftr_spec.
  - now apply Z.testbit_neg_r.
Qed.

Lemma testbit_lnot (a k : Z) :
  Z.testbit (Z.lnot a) k = (0 <=? k) && negb (Z.testbit a k).
Proof.
  destruct (Z.leb_spec 0 k) as [Hp | Hn]; cbn [andb].
  - now apply Z.lnot_spec.
  - now apply Z.testbit_neg_r.
Qed.

Lemma testbit_0F (k : Z) : Z.testbit 0xF k = (0 <=? k) && (k <? 4).
Proof. change 0xF with (Z.ones 4). apply Z.testbit_ones. lia. Qed.

Lemma testbit_F0 (k : Z) : Z.testbit 0xF0 k = (4 <=? k) && (k <? 8).
Proof.
  change 0xF0 with (Z.shiftl (Z.ones 4) 4).
  rewrite testbit_shiftl, Z.testbit_ones by lia.
  destruct (Z.leb_spec 0 k), (Z.leb_spec 0 (k - 4)), (Z.leb_spec 4 k),
    (Z.ltb_spec (k - 4) 4), (Z.ltb_spec k 8); cbn; lia || reflexivity.
Qed.

Lemma testbit_1 (k : Z) : Z.testbit 1 k = (k =? 0).
Proof.
  change 1 with (2 ^ 0). rewrite Z.pow2_bits_eqb by lia. apply Z.eqb_sym.
Qed.

Lemma testbit_bit (b k : Z) :
  Z.testbit (Z.shiftl 1 b) k = (0 <=? k) && (k =? b).
Proof.
  rewrite testbit_shiftl, testbit_1. f_equal.
  destruct (Z.eqb_spec (k - b) 0), (Z.eqb_spec k b); lia || reflexivity.
Qed.


Create Rewrite HintDb bitsdb.
#[local] Hint Rewrite testbit_u32 testbit_u8 testbit_bit testbit_shiftl
  testbit_shiftr testbit_lnot testbit_0F testbit_F0 testbit_1
  Z.land_spec Z.lor_spec Z.ldiff_spec Z.bits_0 : bitsdb.

(** Equal arguments of [Z.testbit], up to linear arithmetic. *)
Ltac same_bit :=
  match goal with
  | |- Z.testbit ?a ?i = Z.testbit ?a ?j => f_equal; lia
  end.

(** Case analysis on every comparison of the goal. *)
Ltac split_cmp :=
  repeat match goal with
    | |- context [?a <? ?b] => destruct (Z.ltb_spec a b)
    | |- context [?a <=? ?b] => destruct (Z.leb_spec a b)
    | |- context [?a =? ?b] => destruct (Z.eqb_spec a b)
    end.

Ltac bits :=
  autorewrite with bitsdb; split_cmp; try lia;
  repeat (progress cbn [andb orb negb]
          || rewrite ?andb_true_r, ?andb_false_r, ?orb_false_r, ?orb_true_r);
  try reflexivity; try same_bit.

(** ** Words written by the driver *)

Lemma IPR_set_clear_field (w pos p : Z) :
  0 <= pos <= 24 ->
  Z.land (Z.shiftr (IPR_set (IPR_clear w pos) pos p) (pos + 4)) 0x0F
  = Z.land p 0xF.
Proof.
  intros Hpos. unfold IPR_set, IPR_clear.
  apply Z.bits_inj'; intros k Hk. bits.
Qed.

Lemma IPR_set_clear_other (w pos pos' p : Z) (a a' : Z) :
  pos = a * 8 -> pos' = a' * 8 -> a <> a' -> 0 <= a <= 3 -> 0 <= a' <= 3 ->
  Z.land (Z.shiftr (IPR_set (IPR_clear w pos) pos p) (pos' + 4)) 0x0F
  = Z.land (Z.shiftr w (pos' + 4)) 0x0F.
Proof.
  intros -> -> Hne Ha Ha'. unfold IPR_set, IPR_clear.
  apply Z.bits_inj'; intros k Hk. bits.
Qed.

(** Every bit of the word outside the upper nibble of the field, and
    inside the 32 bits of the register, is as it was. *)
Lemma IPR_set_clear_frame (w pos p k : Z) :
  0 <= pos <= 24 -> 0 <= k < 32 -> ~ (pos + 4 <= k < pos + 8) ->
  Z.testbit (IPR_set (IPR_clear w pos) pos p) k = Z.testbit w k.
Proof.
  intros Hpos Hk Hout. unfold IPR_set, IPR_clear. bits.
Qed.

Lemma IPR_set_clear_idem (w pos p : Z) :
  0 <= pos <= 24 ->
  IPR_set (IPR_clear (IPR_set (IPR_clear w pos) pos p) pos) pos p
  = IPR_set (IPR_clear w pos) pos p.
Proof.
  intros Hpos. unfold IPR_set, IPR_clear.
  apply Z.bits_inj'; intros k Hk. bits.
Qed.

Lemma land_0F_small (p : Z) : 0 <= p <= 15 -> Z.land p 0xF = p.
Proof.
  intros Hp. change 0xF with (Z.ones 4).
  rewrite Z.land_ones by lia. apply Z.mod_small. lia.
Qed.

(** ** Locations of the identifiers *)

Lemma IRQn_value_range (i : IRQn_Type) : 0 <= IRQn_value i <= 96.
Proof. destruct i; cbn; lia. Qed.

Lemma regIndex_range (i : IRQn_Type) : 0 <= regIndex i <= 3.
Proof.
  unfold regIndex. pose proof (IRQn_value_range i) as Hr. split.
  - apply Z.div_pos; lia.
  - apply Z.div_le_upper_bound; lia.
Qed.

Lemma bitPos_range (i : IRQn_Type) : 0 <= bitPos i <= 31.
Proof.
  unfold bitPos. pose proof (Z.mod_pos_bound (IRQn_value i) 32). lia.
Qed.

Lemma prioIndex_range (i : IRQn_Type) : 0 <= prioIndex i <= 24.
Proof.
  unfold prioIndex. pose proof (IRQn_value_range i) as Hr. split.
  - apply Z.div_pos; lia.
  - apply Z.div_le_upper_bound; lia.
Qed.

Lemma bytePos_range (i : IRQn_Type) : 0 <= bytePos i <= 24.
Proof.
  unfold bytePos. pose proof (Z.mod_pos_bound (IRQn_value i) 4). lia.
Qed.

Lemma u8_small (x : Z) : 0 <= x < 256 -> u8 x = x.
Proof. intros Hx. unfold u8. apply Z.mod_small. cbn. lia. Qed.

Lemma RegNum_regIndex (i : IRQn_Type) : u8 (IRQn_value i / 32) = regIndex i.
Proof.
  apply u8_small. pose proof (regIndex_range i). unfold regIndex in *. lia.
Qed.

Lemma BitNum_bitPos (i : IRQn_Type) : u8 (IRQn_value i mod 32) = bitPos i.
Proof.
  apply u8_small. pose proof (bitPos_range i). unfold bitPos in *. lia.
Qed.

Lemma RegIndex_prioIndex (i : IRQn_Type) : u8 (IRQn_value i / 4) = prioIndex i.
Proof.
  apply u8_small. pose proof (prioIndex_range i). unfold prioIndex in *. lia.
Qed.

Lemma PriorityPos_bytePos (i : IRQn_Type) :
  u8 ((IRQn_value i mod 4) * 8) = bytePos i.
Proof.
  apply u8_small. pose proof (bytePos_range i). unfold bytePos in *. lia.
Qed.

Lemma bit_mask_u32 (i : IRQn_Type) :
  u32 (Z.shiftl 1 (bitPos i)) = Z.shiftl 1 (bitPos i).
Proof.
  pose proof (bitPos_range i) as Hb.
  apply Z.bits_inj'; intros k Hk. bits.
Qed.

(** The discriminants are pairwise distinct. *)
Lemma IRQn_value_inj (i j : IRQn_Type) : IRQn_value i = IRQn_value j -> i = j.
Proof.
  intros Heq.
  revert Heq. destruct i; cbn; destruct j; cbn; intros Heq;
    try reflexivity; discriminate Heq.
Qed.

(** Two identifiers of one priority register lie in different bytes. *)
Lemma same_register_bytes (i j : IRQn_Type) :
  i <> j -> prioIndex i = prioIndex j ->
  IRQn_value i mod 4 <> IRQn_value j mod 4.
Proof.
  unfold prioIndex. intros Hne Hidx Hmod. apply Hne, IRQn_value_inj.
  rewrite (Z.div_mod (IRQn_value i) 4), (Z.div_mod (IRQn_value j) 4) by lia.
  now rewrite Hidx, Hmod.
Qed.

(** ** Register accesses inside the arrays *)

Lemma covers_enable (s : NVIC_RegDef_t) (i : IRQn_Type) :
  covers s -> is_Some (nvic_enable s !! Z.to_nat (regIndex i)).
Proof.
  intros (H & _). apply lookup_lt_is_Some.
  change (Z.to_nat (IRQn_MAX / 32)) with 3%nat in H.
  pose proof (regIndex_range i). lia.
Qed.

Lemma covers_pending (s : NVIC_RegDef_t) (i : IRQn_Type) :
  covers s -> is_Some (nvic_pending s !! Z.to_nat (regIndex i)).
Proof.
  intros (_ & H & _). apply lookup_lt_is_Some.
  change (Z.to_nat (IRQn_MAX / 32)) with 3%nat in H.
  pose proof (regIndex_range i). lia.
Qed.

Lemma covers_active (s : NVIC_RegDef_t) (i : IRQn_Type) :
  covers s -> is_Some (nvic_active s !! Z.to_nat (regIndex i)).
Proof.
  intros (_ & _ & H & _). apply lookup_lt_is_Some.
  change (Z.to_nat (IRQn_MAX / 32)) with 3%nat in H.
  pose proof (regIndex_range i). lia.
Qed.

Lemma covers_ipr (s : NVIC_RegDef_t) (i : IRQn_Type) :
  covers s -> is_Some (nvic_ipr s !! Z.to_nat (prioIndex i)).
Proof.
  intros (_ & _ & _ & H). apply lookup_lt_is_Some.
  change (Z.to_nat (IRQn_MAX / 4)) with 24%nat in H.
  pose proof (prioIndex_range i). lia.
Qed.

(** ** What each function does to the register block *)

Lemma EnableIRQ_run (i : IRQn_Type) (s : NVIC_RegDef_t) (w : Z) :
  nvic_enable s !! Z.to_nat (regIndex i) = Some w ->
  NVIC_EnableIRQ i s
  = Some (tt, mkNVIC (<[Z.to_nat (regIndex i)
                        := Z.lor w (Z.shiftl 1 (bitPos i))]> (nvic_enable s))
                     (nvic_pending s) (nvic_active s) (nvic_ipr s)).
Proof.
  intros Hw. unfold NVIC_EnableIRQ, store, reg_write.
  rewrite RegNum_regIndex, BitNum_bitPos, bit_mask_u32, Hw. reflexivity.
Qed.

Lemma DisableIRQ_run (i : IRQn_Type) (s : NVIC_RegDef_t) (w : Z) :
  nvic_enable s !! Z.to_nat (regIndex i) = Some w ->
  NVIC_DisableIRQ i s
  = Some (tt, mkNVIC (<[Z.to_nat (regIndex i)
                        := Z.ldiff w (Z.shiftl 1 (bitPos i))]> (nvic_enable s))
                     (nvic_pending s) (nvic_active s) (nvic_ipr s)).
Proof.
  intros Hw. unfold NVIC_DisableIRQ, store, reg_write.
  rewrite RegNum_regIndex, BitNum_bitPos, bit_mask_u32, Hw. reflexivity.
Qed.

Lemma SetPendingIRQ_run (i : IRQn_Type) (s : NVIC_RegDef_t) (w : Z) :
  nvic_pending s !! Z.to_nat (regIndex i) = Some w ->
  NVIC_SetPendingIRQ i s
  = Some (tt, mkNVIC (nvic_enable s)
                     (<[Z.to_nat (regIndex i)
                        := Z.lor w (Z.shiftl 1 (bitPos i))]> (nvic_pending s))
                     (nvic_active s) (nvic_ipr s)).
Proof.
  intros Hw. unfold NVIC_SetPendingIRQ, store, reg_write.
  rewrite RegNum_regIndex, BitNum_bitPos, bit_mask_u32, Hw. reflexivity.
Qed.

Lemma ClearPendingIRQ_run (i : IRQn_Type) (s : NVIC_RegDef_t) (w : Z) :
  nvic_pending s !! Z.to_nat (regIndex i) = Some w ->
  NVIC_ClearPendingIRQ i s
  = Some (tt, mkNVIC (nvic_enable s)
                     (<[Z.to_nat (regIndex i)
                        := Z.ldiff w (Z.shiftl 1 (bitPos i))]> (nvic_pending s))
                     (nvic_active s) (nvic_ipr s)).
Proof.
  intros Hw. unfold NVIC_ClearPendingIRQ, store, reg_write.
  rewrite RegNum_regIndex, BitNum_bitPos, bit_mask_u32, Hw. reflexivity.
Qed.

Lemma GetPendingIRQ_run (i : IRQn_Type) (s : NVIC_RegDef_t) (w : Z) :
  nvic_pending s !! Z.to_nat (regIndex i) = Some w ->
  NVIC_GetPendingIRQ i s
  = Some (u8 (Z.land w (Z.shiftl 1 (bitPos i))), s).
Proof.
  intros Hw. unfold NVIC_GetPendingIRQ, bind, load, ret, reg_read.
  rewrite RegNum_regIndex, BitNum_bitPos, bit_mask_u32, Hw. reflexivity.
Qed.

Lemma GetActive_run (i : IRQn_Type) (s : NVIC_RegDef_t) (w : Z) :
  nvic_active s !! Z.to_nat (regIndex i) = Some w ->
  NVIC_GetActive i s
  = Some (if Z.testbit w (bitPos i) then 1 else 0, s).
Proof.
  intros Hw. unfold NVIC_GetActive, bind, load, ret, reg_read.
  rewrite RegNum_regIndex, BitNum_bitPos, bit_mask_u32, Hw.
  pose proof (bitPos_range i) as Hb.
  destruct (Z.eqb_spec (Z.land w (Z.shiftl 1 (bitPos i))) 0) as [Hz | Hnz].
  - assert (Hbit : Z.testbit (Z.land w (Z.shiftl 1 (bitPos i))) (bitPos i)
                   = false) by (rewrite Hz; apply Z.bits_0).
    revert Hbit. bits. intros ->. reflexivity.
  - destruct (Z.testbit w (bitPos i)) eqn:Hbit; [reflexivity |].
    exfalso; apply Hnz. apply Z.bits_inj'; intros k Hk. bits.
    replace k with (bitPos i) by lia. exact Hbit.
Qed.

Lemma GetPriority_run (i : IRQn_Type) (s : NVIC_RegDef_t) (w : Z) :
  nvic_ipr s !! Z.to_nat (prioIndex i) = Some w ->
  NVIC_GetPriority i s
  = Some (Z.land (Z.shiftr w (bytePos i + 4)) 0x0F, s).
Proof.
  intros Hw. unfold NVIC_GetPriority, bind, load, ret, reg_read.
  rewrite RegIndex_prioIndex, PriorityPos_bytePos, Hw. reflexivity.
Qed.

Lemma SetPriority_run (i : IRQn_Type) (p : Z) (s : NVIC_RegDef_t) (w : Z) :
  p <= 15 ->
  nvic_ipr s !! Z.to_nat (prioIndex i) = Some w ->
  NVIC_SetPriority i p s
  = Some (tt, mkNVIC (nvic_enable s) (nvic_pending s) (nvic_active s)
                     (<[Z.to_nat (prioIndex i)
                        := IPR_set (IPR_clear w (bytePos i)) (bytePos i) p]>
                        (nvic_ipr s))).
Proof.
  intros Hp Hw. unfold NVIC_SetPriority.
  destruct (Z.ltb_spec 15 p) as [Hgt | _]; [lia |].
  unfold bind, load, store, reg_read, reg_write.
  rewrite RegIndex_prioIndex, PriorityPos_bytePos.
  assert (Hlt : (Z.to_nat (prioIndex i) < length (nvic_ipr s))%nat)
    by (apply lookup_lt_is_Some; eauto).
  repeat (progress (rewrite ?Hw, ?list_lookup_insert_eq by exact Hlt;
                    cbv beta iota;
                    cbn [nvic_ipr nvic_enable nvic_pending nvic_active])).
  rewrite list_insert_insert_eq. reflexivity.
Qed.

Lemma SetPriority_skip (i : IRQn_Type) (p : Z) (s : NVIC_RegDef_t) :
  15 < p -> NVIC_SetPriority i p s = Some (tt, s).
Proof.
  intros Hp. unfold NVIC_SetPriority.
  destruct (Z.ltb_spec 15 p) as [_ | Hle]; [reflexivity | lia].
Qed.

Ltac covers_now := unfold covers; repeat split; apply Nat.ltb_lt; reflexivity.

(** ** Priorities *)

(** A priority above 15 reaches no register: reading the field back gives
    what it held before the call. *)
Lemma SetPriority_above_15_reads_old (i : IRQn_Type) (p : Z)
    (s : NVIC_RegDef_t) :
  15 < p ->
  (NVIC_SetPriority i p >> NVIC_GetPriority i) s = NVIC_GetPriority i s.
Proof. intros Hp. unfold bind. now rewrite SetPriority_skip. Qed.

(** C1 (the code departs from the claim): on a register block whose
    priority fields are all zero, [NVIC_SetPriority WWDG 16] followed by
    [NVIC_GetPriority WWDG] returns 0, not the clamped value 15, and the
    register block is as it was. *)
Theorem C1_priority_16_not_clamped :
  (NVIC_SetPriority WWDG 16 >> NVIC_GetPriority WWDG) NVIC_reset
  = Some (0, NVIC_reset).
Proof. vm_compute. reflexivity. Qed.

(** Writing a priority of the 4-bit range and reading it back. *)
Lemma SetPriority_GetPriority (i : IRQn_Type) (p : Z) (s : NVIC_RegDef_t) :
  covers s -> 0 <= p <= 15 ->
  exists s1, NVIC_SetPriority i p s = Some (tt, s1) /\
             NVIC_GetPriority i s1 = Some (p, s1).
Proof.
  intros Hc Hp. destruct (covers_ipr s i Hc) as [w Hw].
  eexists. split.
  - apply SetPriority_run; [lia | exact Hw].
  - erewrite GetPriority_run.
    2:{ cbn [nvic_ipr]. apply list_lookup_insert_eq.
        apply lookup_lt_is_Some; eauto. }
    rewrite IPR_set_clear_field by apply bytePos_range.
    now rewrite land_0F_small.
Qed.

(** C3: for every identifier of the enumeration and every priority [p]
    with [0 <= p <= 15], [NVIC_SetPriority] followed by [NVIC_GetPriority]
    returns exactly [p]. *)
Theorem C3_priority_round_trip (IRQn : IRQn_Type) (p : Z)
    (s : NVIC_RegDef_t) :
  covers s -> 0 <= p <= 15 ->
  exists s1, NVIC_SetPriority IRQn p s = Some (tt, s1) /\
             NVIC_GetPriority IRQn s1 = Some (p, s1).
Proof. apply SetPriority_GetPriority. Qed.

Lemma C3_priority_round_trip_witness :
  covers NVIC_reset /\ 0 <= 5 <= 15 /\
  exists s1, NVIC_SetPriority EXTI0 5 NVIC_reset = Some (tt, s1) /\
             NVIC_GetPriority EXTI0 s1 = Some (5, s1).
Proof.
  split; [covers_now | split; [lia |]].
  apply (C3_priority_round_trip EXTI0 5 NVIC_reset); [covers_now | lia].
Defined.

(** C4: for identifiers [id1 <> id2] of one priority register
    ([id1/4 = id2/4]), a priority [p1] in [0..15] and any [p2],
    [NVIC_SetPriority id1 p1] followed by [NVIC_SetPriority id2 p2] leaves
    [NVIC_GetPriority id1 = p1]; and the second call changes no bit of the
    register outside the byte of [id2], and no other priority register. *)
Theorem C4_no_cross_talk (id1 id2 : IRQn_Type) (p1 p2 : Z)
    (s : NVIC_RegDef_t) :
  covers s -> id1 <> id2 -> prioIndex id1 = prioIndex id2 ->
  0 <= p1 <= 15 ->
  exists s1 s2,
    NVIC_SetPriority id1 p1 s = Some (tt, s1) /\
    NVIC_SetPriority id2 p2 s1 = Some (tt, s2) /\
    NVIC_GetPriority id1 s2 = Some (p1, s2) /\
    (forall k, 0 <= k < 32 -> ~ (bytePos id2 <= k < bytePos id2 + 8) ->
               bit_at (nvic_ipr s2) (prioIndex id2) k
               = bit_at (nvic_ipr s1) (prioIndex id2) k) /\
    (forall n : nat, n <> Z.to_nat (prioIndex id2) ->
                     nvic_ipr s2 !! n = nvic_ipr s1 !! n).
Proof.
  intros Hc Hne Hidx Hp1.
  destruct (SetPriority_GetPriority id1 p1 s Hc Hp1) as (s1 & Hset1 & Hget1).
  pose proof (covers_ipr s id1 Hc) as [w Hw].
  rewrite (SetPriority_run id1 p1 s w) in Hset1 by (lia || exact Hw).
  injection Hset1 as <-.
  set (w1 := IPR_set (IPR_clear w (bytePos id1)) (bytePos id1) p1) in *.
  set (s1 := mkNVIC _ _ _ _) in *.
  assert (Hlt : (Z.to_nat (prioIndex id1) < length (nvic_ipr s))%nat)
    by (apply lookup_lt_is_Some; eauto).
  assert (Hw1 : nvic_ipr s1 !! Z.to_nat (prioIndex id2) = Some w1).
  { rewrite <- Hidx. cbn [s1 nvic_ipr]. now apply list_lookup_insert_eq. }
  exists s1.
  destruct (Z.ltb_spec 15 p2) as [Hgt | Hle].
  - exists s1.
    split; [apply SetPriority_run; [lia | exact Hw] |].
    split; [apply SetPriority_skip; exact Hgt |].
    repeat split; auto.
  - eexists.
    split; [apply SetPriority_run; [lia | exact Hw] |].
    split; [apply SetPriority_run; [exact Hle | exact Hw1] |].
    assert (Hlt1 : (Z.to_nat (prioIndex id2) < length (nvic_ipr s1))%nat)
      by (apply lookup_lt_is_Some; eauto).
    split; [| split].
    + erewrite GetPriority_run.
      2:{ cbn [nvic_ipr]. rewrite Hidx. now apply list_lookup_insert_eq. }
      f_equal. f_equal.
      pose proof (same_register_bytes id1 id2 Hne Hidx) as Hbyte.
      pose proof (Z.mod_pos_bound (IRQn_value id1) 4).
      pose proof (Z.mod_pos_bound (IRQn_value id2) 4).
      rewrite (IPR_set_clear_other w1 (bytePos id2) (bytePos id1) p2
                 (IRQn_value id2 mod 4) (IRQn_value id1 mod 4))
        by (reflexivity || lia || congruence).
      rewrite GetPriority_run with (w := w1) in Hget1
        by (rewrite Hidx; exact Hw1).
      now injection Hget1.
    + intros k Hk Hout. unfold bit_at. cbn [nvic_ipr].
      rewrite list_lookup_insert_eq by exact Hlt1. rewrite Hw1.
      pose proof (bytePos_range id2).
      apply IPR_set_clear_frame; lia.
    + intros n Hn. cbn [nvic_ipr]. now apply list_lookup_insert_ne.
Qed.

Lemma C4_no_cross_talk_witness :
  covers NVIC_reset /\ EXTI0 <> EXTI1 /\ prioIndex EXTI0 = prioIndex EXTI1 /\
  0 <= 5 <= 15 /\
  exists s1 s2,
    NVIC_SetPriority EXTI0 5 NVIC_reset = Some (tt, s1) /\
    NVIC_SetPriority EXTI1 10 s1 = Some (tt, s2) /\
    NVIC_GetPriority EXTI0 s2 = Some (5, s2) /\
    (forall k, 0 <= k < 32 -> ~ (bytePos EXTI1 <= k < bytePos EXTI1 + 8) ->
               bit_at (nvic_ipr s2) (prioIndex EXTI1) k
               = bit_at (nvic_ipr s1) (prioIndex EXTI1) k) /\
    (forall n : nat, n <> Z.to_nat (prioIndex EXTI1) ->
                     nvic_ipr s2 !! n = nvic_ipr s1 !! n).
Proof.
  split; [covers_now |]. split; [discriminate |].
  split; [reflexivity |]. split; [lia |].
  apply (C4_no_cross_talk EXTI0 EXTI1 5 10 NVIC_reset);
    [covers_now | discriminate | reflexivity | lia].
Defined.

(** ** Pending state *)

Lemma SetPendingIRQ_sets_bit (i : IRQn_Type) (s : NVIC_RegDef_t) :
  covers s ->
  exists s1, NVIC_SetPendingIRQ i s = Some (tt, s1) /\
             bit_at (nvic_pending s1) (regIndex i) (bitPos i) = true.
Proof.
  intros Hc. destruct (covers_pending s i Hc) as [w Hw].
  eexists. split; [apply SetPendingIRQ_run; exact Hw |].
  unfold bit_at. cbn [nvic_pending].
  rewrite list_lookup_insert_eq by (apply lookup_lt_is_Some; eauto).
  pose proof (bitPos_range i). bits.
Qed.

(** The status survives the cut to eight bits for the bit positions 0..7. *)
Lemma SetPending_GetPending_low (i : IRQn_Type) (s : NVIC_RegDef_t) :
  covers s -> bitPos i < 8 ->
  exists s1, NVIC_SetPendingIRQ i s = Some (tt, s1) /\
             NVIC_GetPendingIRQ i s1 = Some (Z.shiftl 1 (bitPos i), s1) /\
             Z.shiftl 1 (bitPos i) <> 0.
Proof.
  intros Hc Hlow. destruct (covers_pending s i Hc) as [w Hw].
  pose proof (bitPos_range i) as Hb.
  eexists. split; [apply SetPendingIRQ_run; exact Hw |]. split.
  - erewrite GetPendingIRQ_run.
    2:{ cbn [nvic_pending]. apply list_lookup_insert_eq.
        apply lookup_lt_is_Some; eauto. }
    f_equal. f_equal. apply Z.bits_inj'; intros k Hk. bits.
  - rewrite Z.shiftl_1_l. apply Z.pow_nonzero; lia.
Qed.

(** For the bit positions 8..31 the status is zero whatever the register
    holds. *)
Lemma GetPending_high (i : IRQn_Type) (s : NVIC_RegDef_t) :
  covers s -> 8 <= bitPos i -> NVIC_GetPendingIRQ i s = Some (0, s).
Proof.
  intros Hc Hhigh. destruct (covers_pending s i Hc) as [w Hw].
  rewrite (GetPendingIRQ_run i s w Hw). f_equal. f_equal.
  apply Z.bits_inj'; intros k Hk. bits.
Qed.

Lemma ClearPending_GetPending (i : IRQn_Type) (s : NVIC_RegDef_t) :
  covers s ->
  exists s1, NVIC_ClearPendingIRQ i s = Some (tt, s1) /\
             bit_at (nvic_pending s1) (regIndex i) (bitPos i) = false /\
             NVIC_GetPendingIRQ i s1 = Some (0, s1).
Proof.
  intros Hc. destruct (covers_pending s i Hc) as [w Hw].
  pose proof (bitPos_range i) as Hb.
  assert (Hlt : (Z.to_nat (regIndex i) < length (nvic_pending s))%nat)
    by (apply lookup_lt_is_Some; eauto).
  eexists. split; [apply ClearPendingIRQ_run; exact Hw |]. split.
  - unfold bit_at. cbn [nvic_pending].
    rewrite list_lookup_insert_eq by exact Hlt. bits.
  - erewrite GetPendingIRQ_run.
    2:{ cbn [nvic_pending]. now apply list_lookup_insert_eq. }
    f_equal. f_equal. apply Z.bits_inj'; intros k Hk. bits.
Qed.

(** C2 (the code departs from the claim): on a register block whose
    pending bits are all zero, [NVIC_SetPendingIRQ EXTI2] (identifier 8)
    sets the pending bit 8 of the set-pending register 0, and
    [NVIC_GetPendingIRQ EXTI2] then returns zero: the masked word [0x100]
    is cut to the eight bits of [PendingStatus]. *)
Theorem C2_pending_EXTI2_reads_zero :
  exists s1,
    NVIC_SetPendingIRQ EXTI2 NVIC_reset = Some (tt, s1) /\
    bit_at (nvic_pending s1) (regIndex EXTI2) (bitPos EXTI2) = true /\
    NVIC_GetPendingIRQ EXTI2 s1 = Some (0, s1).
Proof. eexists. repeat split; vm_compute; reflexivity. Qed.

(** ** Enable state *)

(** C5: for every identifier of the enumeration, [NVIC_EnableIRQ] is the
    one write of [1 << (id%32)] to the enable register [id/32] and leaves
    the enable bit [(id/32, id%32)] set; [NVIC_DisableIRQ] is the one write
    of the same word to the disable register and leaves that enable bit
    cleared; both leave every other bit of the register as it was, the
    bits [(id+1)%32] and [(id-1)%32] among them. *)
Theorem C5_enable_disable_bit (IRQn : IRQn_Type) (s : NVIC_RegDef_t) :
  covers s ->
  (exists s1,
      NVIC_EnableIRQ IRQn s = Some (tt, s1) /\
      NVIC_EnableIRQ IRQn s
      = store (ISER (regIndex IRQn)) (Z.shiftl 1 (bitPos IRQn)) s /\
      bit_at (nvic_enable s1) (regIndex IRQn) (bitPos IRQn) = true /\
      (forall k, k <> bitPos IRQn ->
                 bit_at (nvic_enable s1) (regIndex IRQn) k
                 = bit_at (nvic_enable s) (regIndex IRQn) k) /\
      bit_at (nvic_enable s1) (regIndex IRQn)
             ((IRQn_value IRQn + 1) mod 32)
      = bit_at (nvic_enable s) (regIndex IRQn)
               ((IRQn_value IRQn + 1) mod 32) /\
      bit_at (nvic_enable s1) (regIndex IRQn)
             ((IRQn_value IRQn - 1) mod 32)
      = bit_at (nvic_enable s) (regIndex IRQn)
               ((IRQn_value IRQn - 1) mod 32))
  /\
  (exists s2,
      NVIC_DisableIRQ IRQn s = Some (tt, s2) /\
      NVIC_DisableIRQ IRQn s
      = store (ICER (regIndex IRQn)) (Z.shiftl 1 (bitPos IRQn)) s /\
      bit_at (nvic_enable s2) (regIndex IRQn) (bitPos IRQn) = false /\
      (forall k, k <> bitPos IRQn ->
                 bit_at (nvic_enable s2) (regIndex IRQn) k
                 = bit_at (nvic_enable s) (regIndex IRQn) k) /\
      bit_at (nvic_enable s2) (regIndex IRQn)
             ((IRQn_value IRQn + 1) mod 32)
      = bit_at (nvic_enable s) (regIndex IRQn)
               ((IRQn_value IRQn + 1) mod 32) /\
      bit_at (nvic_enable s2) (regIndex IRQn)
             ((IRQn_value IRQn - 1) mod 32)
      = bit_at (nvic_enable s) (regIndex IRQn)
               ((IRQn_value IRQn - 1) mod 32)).
Proof.
  intros Hc. destruct (covers_enable s IRQn Hc) as [w Hw].
  pose proof (bitPos_range IRQn) as Hb.
  assert (Hlt : (Z.to_nat (regIndex IRQn) < length (nvic_enable s))%nat)
    by (apply lookup_lt_is_Some; eauto).
  assert (Hup : (IRQn_value IRQn + 1) mod 32 <> bitPos IRQn).
  { unfold bitPos. rewrite <- Zplus_mod_idemp_l.
    pose proof (Z.mod_pos_bound (IRQn_value IRQn) 32).
    destruct (Z.eq_dec (IRQn_value IRQn mod 32) 31) as [-> | Hn];
      [discriminate |].
    rewrite (Z.mod_small (_ + 1)); lia. }
  assert (Hdown : (IRQn_value IRQn - 1) mod 32 <> bitPos IRQn).
  { unfold bitPos. rewrite <- Zminus_mod_idemp_l.
    pose proof (Z.mod_pos_bound (IRQn_value IRQn) 32).
    destruct (Z.eq_dec (IRQn_value IRQn mod 32) 0) as [-> | Hn];
      [discriminate |].
    rewrite (Z.mod_small (_ - 1)); lia. }
  split.
  - assert (Hother : forall k, k <> bitPos IRQn ->
              Z.testbit (Z.lor w (Z.shiftl 1 (bitPos IRQn))) k = Z.testbit w k).
    { intros k Hk. bits. }
    eexists. split; [apply EnableIRQ_run; exact Hw |]. split.
    { rewrite (EnableIRQ_run IRQn s w Hw). unfold store, reg_write.
      now rewrite Hw. }
    unfold bit_at. cbn [nvic_enable].
    rewrite list_lookup_insert_eq by exact Hlt. rewrite Hw.
    split; [bits |]. split; [exact Hother |]. split; now apply Hother.
  - assert (Hother : forall k, k <> bitPos IRQn ->
              Z.testbit (Z.ldiff w (Z.shiftl 1 (bitPos IRQn))) k
              = Z.testbit w k).
    { intros k Hk. bits. }
    eexists. split; [apply DisableIRQ_run; exact Hw |]. split.
    { rewrite (DisableIRQ_run IRQn s w Hw). unfold store, reg_write.
      now rewrite Hw. }
    unfold bit_at. cbn [nvic_enable].
    rewrite list_lookup_insert_eq by exact Hlt. rewrite Hw.
    split; [bits |]. split; [exact Hother |]. split; now apply Hother.
Qed.


Lemma C5_enable_disable_bit_witness :
  covers NVIC_reset /\
  (exists s1,
      NVIC_EnableIRQ EXTI0 NVIC_reset = Some (tt, s1) /\
      NVIC_EnableIRQ EXTI0 NVIC_reset
      = store (ISER (regIndex EXTI0)) (Z.shiftl 1 (bitPos EXTI0))
              NVIC_reset /\
      bit_at (nvic_enable s1) (regIndex EXTI0) (bitPos EXTI0) = true /\
      (forall k, k <> bitPos EXTI0 ->
                 bit_at (nvic_enable s1) (regIndex EXTI0) k
                 = bit_at (nvic_enable NVIC_reset) (regIndex EXTI0) k) /\
      bit_at (nvic_enable s1) (regIndex EXTI0)
             ((IRQn_value EXTI0 + 1) mod 32)
      = bit_at (nvic_enable NVIC_reset) (regIndex EXTI0)
               ((IRQn_value EXTI0 + 1) mod 32) /\
      bit_at (nvic_enable s1) (regIndex EXTI0)
             ((IRQn_value EXTI0 - 1) mod 32)
      = bit_at (nvic_enable NVIC_reset) (regIndex EXTI0)
               ((IRQn_value EXTI0 - 1) mod 32))
  /\
  (exists s2,
      NVIC_DisableIRQ EXTI0 NVIC_reset = Some (tt, s2) /\
      NVIC_DisableIRQ EXTI0 NVIC_reset
      = store (ICER (regIndex EXTI0)) (Z.shiftl 1 (bitPos EXTI0))
              NVIC_reset /\
      bit_at (nvic_enable s2) (regIndex EXTI0) (bitPos EXTI0) = false /\
      (forall k, k <> bitPos EXTI0 ->
                 bit_at (nvic_enable s2) (regIndex EXTI0) k
                 = bit_at (nvic_enable NVIC_reset) (regIndex EXTI0) k) /\
      bit_at (nvic_enable s2) (regIndex EXTI0)
             ((IRQn_value EXTI0 + 1) mod 32)
      = bit_at (nvic_enable NVIC_reset) (regIndex EXTI0)
               ((IRQn_value EXTI0 + 1) mod 32) /\
      bit_at (nvic_enable s2) (regIndex EXTI0)
             ((IRQn_value EXTI0 - 1) mod 32)
      = bit_at (nvic_enable NVIC_reset) (regIndex EXTI0)
               ((IRQn_value EXTI0 - 1) mod 32)).
Proof.
  split; [covers_now |].
  apply (C5_enable_disable_bit EXTI0 NVIC_reset). covers_now.
Defined.

(** ** Calls that write nothing *)

(** C6: with a priority above 15, [NVIC_SetPriority] returns with the
    register block exactly as it was: no register is written, the priority
    field of the identifier included. *)
Theorem C6_priority_above_15_no_write (IRQn : IRQn_Type) (p : Z)
    (s : NVIC_RegDef_t) :
  15 < p -> NVIC_SetPriority IRQn p s = Some (tt, s).
Proof. apply SetPriority_skip. Qed.

Lemma C6_priority_above_15_no_write_witness :
  15 < 200 /\ NVIC_SetPriority USART2 200 NVIC_reset = Some (tt, NVIC_reset).
Proof.
  split; [lia |].
  apply (C6_priority_above_15_no_write USART2 200 NVIC_reset). lia.
Defined.

(** C7: for every identifier of the enumeration, [NVIC_GetPendingIRQ],
    [NVIC_GetPriority] and [NVIC_GetActive] return a value and leave the
    register block exactly as it was. *)
Theorem C7_getters_pure (IRQn : IRQn_Type) (s : NVIC_RegDef_t) :
  covers s ->
  (exists v, NVIC_GetPendingIRQ IRQn s = Some (v, s)) /\
  (exists v, NVIC_GetPriority IRQn s = Some (v, s)) /\
  (exists v, NVIC_GetActive IRQn s = Some (v, s)).
Proof.
  intros Hc.
  destruct (covers_pending s IRQn Hc) as [wp Hwp].
  destruct (covers_ipr s IRQn Hc) as [wi Hwi].
  destruct (covers_active s IRQn Hc) as [wa Hwa].
  repeat split; eexists.
  - apply GetPendingIRQ_run; exact Hwp.
  - apply GetPriority_run; exact Hwi.
  - apply GetActive_run; exact Hwa.
Qed.

Lemma C7_getters_pure_witness :
  covers NVIC_reset /\
  (exists v, NVIC_GetPendingIRQ TIM2 NVIC_reset = Some (v, NVIC_reset)) /\
  (exists v, NVIC_GetPriority TIM2 NVIC_reset = Some (v, NVIC_reset)) /\
  (exists v, NVIC_GetActive TIM2 NVIC_reset = Some (v, NVIC_reset)).
Proof.
  split; [covers_now |]. apply (C7_getters_pure TIM2 NVIC_reset). covers_now.
Defined.

(** ** Sequences of calls *)

Lemma covers_resize (s s' : NVIC_RegDef_t) :
  length (nvic_enable s') = length (nvic_enable s) ->
  length (nvic_pending s') = length (nvic_pending s) ->
  length (nvic_active s') = length (nvic_active s) ->
  length (nvic_ipr s') = length (nvic_ipr s) ->
  covers s -> covers s'.
Proof. unfold covers. intros -> -> -> ->. exact id. Qed.

(** One call returns, keeps the active bit-array and keeps the sizes. *)
Lemma call_keeps_active (c : NVIC_call) (s : NVIC_RegDef_t) :
  covers s ->
  exists s', call c s = Some (tt, s') /\
             nvic_active s' = nvic_active s /\ covers s'.
Proof.
  intros Hc. destruct c as [i | i | i | i | i | i p | i | i]; cbn [call].
  - destruct (covers_enable s i Hc) as [w Hw].
    eexists. split; [apply EnableIRQ_run; exact Hw |]. split; [reflexivity |].
    apply (covers_resize s); cbn; rewrite ?length_insert; auto.
  - destruct (covers_enable s i Hc) as [w Hw].
    eexists. split; [apply DisableIRQ_run; exact Hw |]. split; [reflexivity |].
    apply (covers_resize s); cbn; rewrite ?length_insert; auto.
  - destruct (covers_pending s i Hc) as [w Hw].
    eexists. split; [apply SetPendingIRQ_run; exact Hw |].
    split; [reflexivity |].
    apply (covers_resize s); cbn; rewrite ?length_insert; auto.
  - destruct (covers_pending s i Hc) as [w Hw].
    eexists. split; [apply ClearPendingIRQ_run; exact Hw |].
    split; [reflexivity |].
    apply (covers_resize s); cbn; rewrite ?length_insert; auto.
  - destruct (covers_pending s i Hc) as [w Hw].
    exists s. unfold bind. rewrite (GetPendingIRQ_run i s w Hw). auto.
  - destruct (Z.ltb_spec 15 p) as [Hgt | Hle].
    + exists s. rewrite SetPriority_skip by exact Hgt. auto.
    + destruct (covers_ipr s i Hc) as [w Hw].
      eexists. split; [apply SetPriority_run; [exact Hle | exact Hw] |].
      split; [reflexivity |].
      apply (covers_resize s); cbn; rewrite ?length_insert; auto.
  - destruct (covers_ipr s i Hc) as [w Hw].
    exists s. unfold bind. rewrite (GetPriority_run i s w Hw). auto.
  - destruct (covers_active s i Hc) as [w Hw].
    exists s. unfold bind. rewrite (GetActive_run i s w Hw). auto.
Qed.

(** C8: every sequence of driver calls, on identifiers of the enumeration,
    returns and leaves the active bit-array exactly as it was. *)
Theorem C8_active_never_written (cs : list NVIC_call) (s : NVIC_RegDef_t) :
  covers s ->
  exists s', calls cs s = Some (tt, s') /\ nvic_active s' = nvic_active s.
Proof.
  revert s. induction cs as [| c cs IH]; intros s Hc.
  - exists s. split; reflexivity.
  - destruct (call_keeps_active c s Hc) as (s1 & Hrun & Hact & Hc1).
    destruct (IH s1 Hc1) as (s2 & Hrest & Hact2).
    exists s2. split.
    + cbn [calls]. unfold bind. rewrite Hrun. exact Hrest.
    + congruence.
Qed.

Lemma C8_active_never_written_witness :
  covers NVIC_reset /\
  exists s',
    calls [CallEnableIRQ EXTI0; CallSetPendingIRQ EXTI0;
           CallSetPriority EXTI0 5; CallGetActive EXTI0;
           CallClearPendingIRQ EXTI0; CallDisableIRQ EXTI0] NVIC_reset
    = Some (tt, s') /\
    nvic_active s' = nvic_active NVIC_reset.
Proof.
  split; [covers_now |].
  apply (C8_active_never_written _ NVIC_reset). covers_now.
Defined.

(** ** Repeated calls *)

Lemma lor_twice (w m : Z) : Z.lor (Z.lor w m) m = Z.lor w m.
Proof. now rewrite <- Z.lor_assoc, Z.lor_diag. Qed.

Lemma ldiff_twice (w m : Z) : Z.ldiff (Z.ldiff w m) m = Z.ldiff w m.
Proof.
  apply Z.bits_inj'; intros k Hk. rewrite !Z.ldiff_spec.
  now destruct (Z.testbit w k), (Z.testbit m k).
Qed.

(** C9: for every identifier of the enumeration and every priority,
    calling [NVIC_EnableIRQ], [NVIC_DisableIRQ], [NVIC_SetPendingIRQ],
    [NVIC_ClearPendingIRQ] or [NVIC_SetPriority] a second time leaves the
    register block as the first call left it. *)
Theorem C9_idempotent (IRQn : IRQn_Type) (p : Z) (s : NVIC_RegDef_t) :
  covers s ->
  (exists s1, NVIC_EnableIRQ IRQn s = Some (tt, s1) /\
              NVIC_EnableIRQ IRQn s1 = Some (tt, s1)) /\
  (exists s1, NVIC_DisableIRQ IRQn s = Some (tt, s1) /\
              NVIC_DisableIRQ IRQn s1 = Some (tt, s1)) /\
  (exists s1, NVIC_SetPendingIRQ IRQn s = Some (tt, s1) /\
              NVIC_SetPendingIRQ IRQn s1 = Some (tt, s1)) /\
  (exists s1, NVIC_ClearPendingIRQ IRQn s = Some (tt, s1) /\
              NVIC_ClearPendingIRQ IRQn s1 = Some (tt, s1)) /\
  (exists s1, NVIC_SetPriority IRQn p s = Some (tt, s1) /\
              NVIC_SetPriority IRQn p s1 = Some (tt, s1)).
Proof.
  intros Hc.
  destruct (covers_enable s IRQn Hc) as [we Hwe].
  destruct (covers_pending s IRQn Hc) as [wp Hwp].
  destruct (covers_ipr s IRQn Hc) as [wi Hwi].
  assert (Hle : (Z.to_nat (regIndex IRQn) < length (nvic_enable s))%nat)
    by (apply lookup_lt_is_Some; eauto).
  assert (Hlp : (Z.to_nat (regIndex IRQn) < length (nvic_pending s))%nat)
    by (apply lookup_lt_is_Some; eauto).
  assert (Hli : (Z.to_nat (prioIndex IRQn) < length (nvic_ipr s))%nat)
    by (apply lookup_lt_is_Some; eauto).
  split; [| split; [| split; [| split]]].
  - eexists. split; [apply EnableIRQ_run; exact Hwe |].
    erewrite EnableIRQ_run
      by (cbn [nvic_enable]; now apply list_lookup_insert_eq).
    cbn [nvic_enable nvic_pending nvic_active nvic_ipr].
    now rewrite list_insert_insert_eq, lor_twice.
  - eexists. split; [apply DisableIRQ_run; exact Hwe |].
    erewrite DisableIRQ_run
      by (cbn [nvic_enable]; now apply list_lookup_insert_eq).
    cbn [nvic_enable nvic_pending nvic_active nvic_ipr].
    now rewrite list_insert_insert_eq, ldiff_twice.
  - eexists. split; [apply SetPendingIRQ_run; exact Hwp |].
    erewrite SetPendingIRQ_run
      by (cbn [nvic_pending]; now apply list_lookup_insert_eq).
    cbn [nvic_enable nvic_pending nvic_active nvic_ipr].
    now rewrite list_insert_insert_eq, lor_twice.
  - eexists. split; [apply ClearPendingIRQ_run; exact Hwp |].
    erewrite ClearPendingIRQ_run
      by (cbn [nvic_pending]; now apply list_lookup_insert_eq).
    cbn [nvic_enable nvic_pending nvic_active nvic_ipr].
    now rewrite list_insert_insert_eq, ldiff_twice.
  - destruct (Z.ltb_spec 15 p) as [Hgt | Hp].
    + exists s. split; apply SetPriority_skip; exact Hgt.
    + eexists. split; [apply SetPriority_run; [exact Hp | exact Hwi] |].
      erewrite SetPriority_run;
        [| exact Hp | cbn [nvic_ipr]; now apply list_lookup_insert_eq].
      cbn [nvic_enable nvic_pending nvic_active nvic_ipr].
      rewrite list_insert_insert_eq, IPR_set_clear_idem
        by apply bytePos_range.
      reflexivity.
Qed.

Lemma C9_idempotent_witness :
  covers NVIC_reset /\
  (exists s1, NVIC_EnableIRQ SPI1 NVIC_reset = Some (tt, s1) /\
              NVIC_EnableIRQ SPI1 s1 = Some (tt, s1)) /\
  (exists s1, NVIC_DisableIRQ SPI1 NVIC_reset = Some (tt, s1) /\
              NVIC_DisableIRQ SPI1 s1 = Some (tt, s1)) /\
  (exists s1, NVIC_SetPendingIRQ SPI1 NVIC_reset = Some (tt, s1) /\
              NVIC_SetPendingIRQ SPI1 s1 = Some (tt, s1)) /\
  (exists s1, NVIC_ClearPendingIRQ SPI1 NVIC_reset = Some (tt, s1) /\
              NVIC_ClearPendingIRQ SPI1 s1 = Some (tt, s1)) /\
  (exists s1, NVIC_SetPriority SPI1 9 NVIC_reset = Some (tt, s1) /\
              NVIC_SetPriority SPI1 9 s1 = Some (tt, s1)).
Proof.
  split; [covers_now |].
  apply (C9_idempotent SPI1 9 NVIC_reset). covers_now.
Defined.

(** ** Array bounds *)

(** An identifier beyond the last word of an array is an access out of
    bounds: with three words per bit-array the largest identifier has no
    enable register. *)
Lemma EnableIRQ_out_of_bounds :
  NVIC_EnableIRQ FMPI2C1_error
    (mkNVIC (replicate 3 0) (replicate 3 0) (replicate 3 0) (replicate 60 0))
  = None.
Proof. vm_compute. reflexivity. Qed.

(** C10: the largest discriminant of the enumeration is 96; for every
    identifier of the enumeration the bit-array index [id/32] is at most 3
    and the priority index [id/4] at most 24, the [uint8_t] index
    variables hold them unchanged, and on a register block with at least
    four words per bit-array and twenty-five priority words each of the
    eight functions returns, that is, makes no access out of bounds. *)
Theorem C10_indices_in_bounds (IRQn : IRQn_Type) (p : Z)
    (s : NVIC_RegDef_t) :
  covers s ->
  IRQn_MAX = 96 /\ 0 <= IRQn_value IRQn <= IRQn_MAX /\
  0 <= regIndex IRQn <= 3 /\ 0 <= prioIndex IRQn <= 24 /\
  u8 (IRQn_value IRQn / 32) = regIndex IRQn /\
  u8 (IRQn_value IRQn / 4) = prioIndex IRQn /\
  is_Some (NVIC_EnableIRQ IRQn s) /\
  is_Some (NVIC_DisableIRQ IRQn s) /\
  is_Some (NVIC_SetPendingIRQ IRQn s) /\
  is_Some (NVIC_ClearPendingIRQ IRQn s) /\
  is_Some (NVIC_GetPendingIRQ IRQn s) /\
  is_Some (NVIC_SetPriority IRQn p s) /\
  is_Some (NVIC_GetPriority IRQn s) /\
  is_Some (NVIC_GetActive IRQn s).
Proof.
  intros Hc.
  destruct (covers_enable s IRQn Hc) as [we Hwe].
  destruct (covers_pending s IRQn Hc) as [wp Hwp].
  destruct (covers_active s IRQn Hc) as [wa Hwa].
  destruct (covers_ipr s IRQn Hc) as [wi Hwi].
  split; [reflexivity |].
  split; [apply IRQn_value_range |].
  split; [apply regIndex_range |].
  split; [apply prioIndex_range |].
  split; [apply RegNum_regIndex |].
  split; [apply RegIndex_prioIndex |].
  repeat split.
  - rewrite (EnableIRQ_run IRQn s we Hwe). eauto.
  - rewrite (DisableIRQ_run IRQn s we Hwe). eauto.
  - rewrite (SetPendingIRQ_run IRQn s wp Hwp). eauto.
  - rewrite (ClearPendingIRQ_run IRQn s wp Hwp). eauto.
  - rewrite (GetPendingIRQ_run IRQn s wp Hwp). eauto.
  - destruct (Z.ltb_spec 15 p) as [Hgt | Hp].
    + rewrite SetPriority_skip by exact Hgt. eauto.
    + rewrite (SetPriority_run IRQn p s wi Hp Hwi). eauto.
  - rewrite (GetPriority_run IRQn s wi Hwi). eauto.
  - rewrite (GetActive_run IRQn s wa Hwa). eauto.
Qed.

Lemma C10_indices_in_bounds_witness :
  covers NVIC_reset /\
  IRQn_MAX = 96 /\ 0 <= IRQn_value FMPI2C1_error <= IRQn_MAX /\
  0 <= regIndex FMPI2C1_error <= 3 /\ 0 <= prioIndex FMPI2C1_error <= 24 /\
  u8 (IRQn_value FMPI2C1_error / 32) = regIndex FMPI2C1_error /\
  u8 (IRQn_value FMPI2C1_error / 4) = prioIndex FMPI2C1_error /\
  is_Some (NVIC_EnableIRQ FMPI2C1_error NVIC_reset) /\
  is_Some (NVIC_DisableIRQ FMPI2C1_error NVIC_reset) /\
  is_Some (NVIC_SetPendingIRQ FMPI2C1_error NVIC_reset) /\
  is_Some (NVIC_ClearPendingIRQ FMPI2C1_error NVIC_reset) /\
  is_Some (NVIC_GetPendingIRQ FMPI2C1_error NVIC_reset) /\
  is_Some (NVIC_SetPriority FMPI2C1_error 7 NVIC_reset) /\
  is_Some (NVIC_GetPriority FMPI2C1_error NVIC_reset) /\
  is_Some (NVIC_GetActive FMPI2C1_error NVIC_reset).
Proof.
  split; [covers_now |].
  apply (C10_indices_in_bounds FMPI2C1_error 7 NVIC_reset). covers_now.
Defined.

(** ** Values returned by the getters *)

(** X1: [NVIC_GetActive] returns 1 when the active bit of the identifier is
    set and 0 when it is clear, for every bit position, and writes
    nothing. *)
Theorem GetActive_value (IRQn : IRQn_Type) (s : NVIC_RegDef_t) :
  covers s ->
  NVIC_GetActive IRQn s
  = Some (if bit_at (nvic_active s) (regIndex IRQn) (bitPos IRQn)
          then 1 else 0, s).
Proof.
  intros Hc. destruct (covers_active s IRQn Hc) as [w Hw].
  rewrite (GetActive_run IRQn s w Hw). unfold bit_at. now rewrite Hw.
Qed.

Lemma GetActive_value_witness :
  covers NVIC_reset /\
  NVIC_GetActive USART3 NVIC_reset
  = Some (if bit_at (nvic_active NVIC_reset) (regIndex USART3)
                    (bitPos USART3)
          then 1 else 0, NVIC_reset).
Proof.
  split; [covers_now |]. apply (GetActive_value USART3 NVIC_reset).
  covers_now.
Defined.

Lemma GetPendingIRQ_bit_value (IRQn : IRQn_Type) (s : NVIC_RegDef_t) :
  covers s ->
  NVIC_GetPendingIRQ IRQn s
  = Some (if bit_at (nvic_pending s) (regIndex IRQn) (bitPos IRQn)
             && (bitPos IRQn <? 8)
          then Z.shiftl 1 (bitPos IRQn) else 0, s).
Proof.
  intros Hc. destruct (covers_pending s IRQn Hc) as [w Hw].
  pose proof (bitPos_range IRQn) as Hb.
  rewrite (GetPendingIRQ_run IRQn s w Hw). unfold bit_at. rewrite Hw.
  f_equal. f_equal.
  destruct (Z.testbit w (bitPos IRQn)) eqn:Hbit;
    destruct (Z.ltb_spec (bitPos IRQn) 8) as [Hlow | Hhigh]; cbn [andb];
    apply Z.bits_inj'; intros k Hk; bits;
    replace k with (bitPos IRQn) by lia; exact Hbit.
Qed.

(** X2: [NVIC_GetPendingIRQ] returns [1 << (id%32)] when the pending bit of
    the identifier is set and [id%32 < 8], and 0 in every other case. *)
Theorem GetPendingIRQ_value (IRQn : IRQn_Type) (s : NVIC_RegDef_t) :
  covers s ->
  NVIC_GetPendingIRQ IRQn s
  = Some (if bit_at (nvic_pending s) (regIndex IRQn) (bitPos IRQn)
             && (bitPos IRQn <? 8)
          then Z.shiftl 1 (bitPos IRQn) else 0, s).
Proof. apply GetPendingIRQ_bit_value. Qed.

Lemma GetPendingIRQ_value_witness :
  covers NVIC_reset /\
  NVIC_GetPendingIRQ EXTI0 NVIC_reset
  = Some (if bit_at (nvic_pending NVIC_reset) (regIndex EXTI0)
                    (bitPos EXTI0)
             && (bitPos EXTI0 <? 8)
          then Z.shiftl 1 (bitPos EXTI0) else 0, NVIC_reset).
Proof.
  split; [covers_now |]. apply (GetPendingIRQ_value EXTI0 NVIC_reset).
  covers_now.
Defined.

(** X3: [NVIC_GetPriority] returns a value of the range 0..15 whatever the
    priority register holds, and writes nothing. *)
Theorem GetPriority_range (IRQn : IRQn_Type) (s : NVIC_RegDef_t) :
  covers s ->
  exists v, NVIC_GetPriority IRQn s = Some (v, s) /\ 0 <= v <= 15.
Proof.
  intros Hc. destruct (covers_ipr s IRQn Hc) as [w Hw].
  eexists. split; [apply GetPriority_run; exact Hw |].
  change 0x0F with (Z.ones 4). rewrite Z.land_ones by lia.
  change (2 ^ 4) with 16. change (Z.ones 4) with 15.
  pose proof (Z.mod_pos_bound (Z.shiftr w (bytePos IRQn + 4)) 16).
  lia.
Qed.

Lemma GetPriority_range_witness :
  covers NVIC_reset /\
  exists v, NVIC_GetPriority DCMI NVIC_reset = Some (v, NVIC_reset) /\
            0 <= v <= 15.
Proof.
  split; [covers_now |]. apply (GetPriority_range DCMI NVIC_reset).
  covers_now.
Defined.

(** ** Locations are not shared *)

Lemma locations_differ (i j : IRQn_Type) :
  i <> j ->
  (regIndex i <> regIndex j \/ bitPos i <> bitPos j) /\
  (prioIndex i <> prioIndex j \/ bytePos i <> bytePos j).
Proof.
  intros Hne. split.
  - destruct (Z.eq_dec (regIndex i) (regIndex j)) as [Hq | Hq];
      [right | now left].
    intros Hr. apply Hne, IRQn_value_inj. unfold regIndex, bitPos in *.
    rewrite (Z.div_mod (IRQn_value i) 32), (Z.div_mod (IRQn_value j) 32)
      by lia.
    now rewrite Hq, Hr.
  - destruct (Z.eq_dec (prioIndex i) (prioIndex j)) as [Hq | Hq];
      [right | now left].
    intros Hr. apply (same_register_bytes i j Hne Hq).
    unfold bytePos in Hr. lia.
Qed.

(** X4: two different identifiers of the enumeration differ in their bit
    location [(id/32, id%32)] and in their priority byte
    [(id/4, (id%4)*8)]: no bit and no priority field is shared. *)
Theorem locations_distinct (i j : IRQn_Type) :
  i <> j ->
  (regIndex i <> regIndex j \/ bitPos i <> bitPos j) /\
  (prioIndex i <> prioIndex j \/ bytePos i <> bytePos j).
Proof. apply locations_differ. Qed.

Lemma locations_distinct_witness :
  EXTI0 <> EXTI1 /\
  (regIndex EXTI0 <> regIndex EXTI1 \/ bitPos EXTI0 <> bitPos EXTI1) /\
  (prioIndex EXTI0 <> prioIndex EXTI1 \/ bytePos EXTI0 <> bytePos EXTI1).
Proof.
  split; [discriminate |]. apply (locations_distinct EXTI0 EXTI1).
  discriminate.
Defined.

(** ** The functions as updates of one word *)

Lemma insert_alter_word (f : Z -> Z) (l : list Z) (n : nat) (w : Z) :
  l !! n = Some w -> <[n := f w]> l = alter f n l.
Proof.
  intros Hw. rewrite list_insert_alter.
  apply list_alter_ext; [| reflexivity]. intros x Hx. congruence.
Qed.

Lemma alter_swap (f g : Z -> Z) (n m : nat) (l : list Z) :
  (n = m -> forall w, f (g w) = g (f w)) ->
  alter f n (alter g m l) = alter g m (alter f n l).
Proof.
  intros Hfg. destruct (decide (n = m)) as [-> | Hne].
  - rewrite !list_alter_alter_eq. apply list_alter_ext; [| reflexivity].
    intros x _. cbn. now apply Hfg.
  - now apply list_alter_alter_ne.
Qed.

Lemma EnableIRQ_alter (i : IRQn_Type) (s : NVIC_RegDef_t) :
  covers s ->
  NVIC_EnableIRQ i s
  = Some (tt, mkNVIC (alter (fun w => Z.lor w (Z.shiftl 1 (bitPos i)))
                            (Z.to_nat (regIndex i)) (nvic_enable s))
                     (nvic_pending s) (nvic_active s) (nvic_ipr s)).
Proof.
  intros Hc. destruct (covers_enable s i Hc) as [w Hw].
  rewrite (EnableIRQ_run i s w Hw).
  now rewrite (insert_alter_word (fun w => Z.lor w _) _ _ w Hw).
Qed.

Lemma DisableIRQ_alter (i : IRQn_Type) (s : NVIC_RegDef_t) :
  covers s ->
  NVIC_DisableIRQ i s
  = Some (tt, mkNVIC (alter (fun w => Z.ldiff w (Z.shiftl 1 (bitPos i)))
                            (Z.to_nat (regIndex i)) (nvic_enable s))
                     (nvic_pending s) (nvic_active s) (nvic_ipr s)).
Proof.
  intros Hc. destruct (covers_enable s i Hc) as [w Hw].
  rewrite (DisableIRQ_run i s w Hw).
  now rewrite (insert_alter_word (fun w => Z.ldiff w _) _ _ w Hw).
Qed.

Lemma SetPendingIRQ_alter (i : IRQn_Type) (s : NVIC_RegDef_t) :
  covers s ->
  NVIC_SetPendingIRQ i s
  = Some (tt, mkNVIC (nvic_enable s)
                     (alter (fun w => Z.lor w (Z.shiftl 1 (bitPos i)))
                            (Z.to_nat (regIndex i)) (nvic_pending s))
                     (nvic_active s) (nvic_ipr s)).
Proof.
  intros Hc. destruct (covers_pending s i Hc) as [w Hw].
  rewrite (SetPendingIRQ_run i s w Hw).
  now rewrite (insert_alter_word (fun w => Z.lor w _) _ _ w Hw).
Qed.

Lemma ClearPendingIRQ_alter (i : IRQn_Type) (s : NVIC_RegDef_t) :
  covers s ->
  NVIC_ClearPendingIRQ i s
  = Some (tt, mkNVIC (nvic_enable s)
                     (alter (fun w => Z.ldiff w (Z.shiftl 1 (bitPos i)))
                            (Z.to_nat (regIndex i)) (nvic_pending s))
                     (nvic_active s) (nvic_ipr s)).
Proof.
  intros Hc. destruct (covers_pending s i Hc) as [w Hw].
  rewrite (ClearPendingIRQ_run i s w Hw).
  now rewrite (insert_alter_word (fun w => Z.ldiff w _) _ _ w Hw).
Qed.

Lemma SetPriority_alter (i : IRQn_Type) (p : Z) (s : NVIC_RegDef_t) :
  covers s ->
  NVIC_SetPriority i p s
  = Some (tt, mkNVIC (nvic_enable s) (nvic_pending s) (nvic_active s)
                     (alter (IPR_after i p) (Z.to_nat (prioIndex i))
                            (nvic_ipr s))).
Proof.
  intros Hc. destruct (covers_ipr s i Hc) as [w Hw]. unfold IPR_after.
  destruct (Z.ltb_spec 15 p) as [Hgt | Hle].
  - rewrite SetPriority_skip by exact Hgt.
    rewrite list_alter_id by reflexivity. now destruct s.
  - rewrite (SetPriority_run i p s w Hle Hw).
    now rewrite (insert_alter_word (fun w => IPR_set _ _ _) _ _ w Hw).
Qed.

(** The sizes of the arrays after updates of single words. *)
Ltac covers_kept :=
  match goal with
  | Hc : covers ?s |- covers _ =>
      apply (covers_resize s);
      [ cbn [nvic_enable nvic_pending nvic_active nvic_ipr];
        rewrite ?length_alter; reflexivity .. | exact Hc ]
  end.

(** Two calls in a row, written as updates. *)
Ltac run2 L1 L2 :=
  unfold bind; rewrite L1 by assumption; rewrite L2 by covers_kept;
  cbn [nvic_enable nvic_pending nvic_active nvic_ipr].

Lemma ldiff_lor_same (w m : Z) : Z.ldiff (Z.lor w m) m = Z.ldiff w m.
Proof.
  apply Z.bits_inj'; intros k Hk. rewrite !Z.ldiff_spec, Z.lor_spec.
  now destruct (Z.testbit w k), (Z.testbit m k).
Qed.

Lemma lor_ldiff_same (w m : Z) : Z.lor (Z.ldiff w m) m = Z.lor w m.
Proof.
  apply Z.bits_inj'; intros k Hk. rewrite !Z.lor_spec, Z.ldiff_spec.
  now destruct (Z.testbit w k), (Z.testbit m k).
Qed.

Lemma lor_swap (w a b : Z) : Z.lor (Z.lor w a) b = Z.lor (Z.lor w b) a.
Proof. now rewrite <- !Z.lor_assoc, (Z.lor_comm a b). Qed.

Lemma ldiff_swap (w a b : Z) :
  Z.ldiff (Z.ldiff w a) b = Z.ldiff (Z.ldiff w b) a.
Proof.
  apply Z.bits_inj'; intros k Hk. rewrite !Z.ldiff_spec.
  now destruct (Z.testbit w k), (Z.testbit a k), (Z.testbit b k).
Qed.

Lemma lor_ldiff_swap (w bi bj : Z) :
  0 <= bi -> 0 <= bj -> bi <> bj ->
  Z.lor (Z.ldiff w (Z.shiftl 1 bj)) (Z.shiftl 1 bi)
  = Z.ldiff (Z.lor w (Z.shiftl 1 bi)) (Z.shiftl 1 bj).
Proof.
  intros Hi Hj Hne. apply Z.bits_inj'; intros k Hk. bits.
Qed.

Lemma IPR_after_overwrite (i : IRQn_Type) (p q w : Z) :
  q <= 15 -> IPR_after i q (IPR_after i p w) = IPR_after i q w.
Proof.
  intros Hq. pose proof (bytePos_range i) as Hpos. unfold IPR_after.
  destruct (Z.ltb_spec 15 q) as [Hgt | _]; [lia |].
  destruct (15 <? p); [reflexivity |].
  unfold IPR_set, IPR_clear. apply Z.bits_inj'; intros k Hk. bits.
Qed.

Lemma IPR_after_swap (i j : IRQn_Type) (p q w : Z) :
  i <> j -> prioIndex i = prioIndex j ->
  IPR_after i p (IPR_after j q w) = IPR_after j q (IPR_after i p w).
Proof.
  intros Hne Hidx. pose proof (same_register_bytes i j Hne Hidx) as Hbyte.
  pose proof (Z.mod_pos_bound (IRQn_value i) 4).
  pose proof (Z.mod_pos_bound (IRQn_value j) 4).
  unfold IPR_after, bytePos.
  destruct (15 <? p), (15 <? q); try reflexivity.
  unfold IPR_set, IPR_clear. apply Z.bits_inj'; intros k Hk. bits.
Qed.

(** ** Calls in a row *)

(** X5: of an enable and a disable of one identifier the later call decides:
    [NVIC_EnableIRQ] then [NVIC_DisableIRQ] leaves the register block as
    [NVIC_DisableIRQ] alone does, and the other way round. *)
Theorem Enable_Disable_last_wins (IRQn : IRQn_Type) (s : NVIC_RegDef_t) :
  covers s ->
  (exists s', NVIC_DisableIRQ IRQn s = Some (tt, s') /\
              (NVIC_EnableIRQ IRQn >> NVIC_DisableIRQ IRQn) s
              = Some (tt, s')) /\
  (exists s', NVIC_EnableIRQ IRQn s = Some (tt, s') /\
              (NVIC_DisableIRQ IRQn >> NVIC_EnableIRQ IRQn) s
              = Some (tt, s')).
Proof.
  intros Hc. split; eexists.
  - split; [apply DisableIRQ_alter; exact Hc |].
    run2 EnableIRQ_alter DisableIRQ_alter.
    rewrite list_alter_alter_eq. do 3 f_equal.
    apply list_alter_ext; [| reflexivity]. intros w _. apply ldiff_lor_same.
  - split; [apply EnableIRQ_alter; exact Hc |].
    run2 DisableIRQ_alter EnableIRQ_alter.
    rewrite list_alter_alter_eq. do 3 f_equal.
    apply list_alter_ext; [| reflexivity]. intros w _. apply lor_ldiff_same.
Qed.

Lemma Enable_Disable_last_wins_witness :
  covers NVIC_reset /\
  (exists s', NVIC_DisableIRQ UART4 NVIC_reset = Some (tt, s') /\
              (NVIC_EnableIRQ UART4 >> NVIC_DisableIRQ UART4) NVIC_reset
              = Some (tt, s')) /\
  (exists s', NVIC_EnableIRQ UART4 NVIC_reset = Some (tt, s') /\
              (NVIC_DisableIRQ UART4 >> NVIC_EnableIRQ UART4) NVIC_reset
              = Some (tt, s')).
Proof.
  split; [covers_now |].
  apply (Enable_Disable_last_wins UART4 NVIC_reset). covers_now.
Defined.

(** X6: of a set-pending and a clear-pending of one identifier the later call
    decides, in the same way. *)
Theorem SetPending_ClearPending_last_wins (IRQn : IRQn_Type)
    (s : NVIC_RegDef_t) :
  covers s ->
  (exists s', NVIC_ClearPendingIRQ IRQn s = Some (tt, s') /\
              (NVIC_SetPendingIRQ IRQn >> NVIC_ClearPendingIRQ IRQn) s
              = Some (tt, s')) /\
  (exists s', NVIC_SetPendingIRQ IRQn s = Some (tt, s') /\
              (NVIC_ClearPendingIRQ IRQn >> NVIC_SetPendingIRQ IRQn) s
              = Some (tt, s')).
Proof.
  intros Hc. split; eexists.
  - split; [apply ClearPendingIRQ_alter; exact Hc |].
    run2 SetPendingIRQ_alter ClearPendingIRQ_alter.
    rewrite list_alter_alter_eq. do 3 f_equal.
    apply list_alter_ext; [| reflexivity]. intros w _. apply ldiff_lor_same.
  - split; [apply SetPendingIRQ_alter; exact Hc |].
    run2 ClearPendingIRQ_alter SetPendingIRQ_alter.
    rewrite list_alter_alter_eq. do 3 f_equal.
    apply list_alter_ext; [| reflexivity]. intros w _. apply lor_ldiff_same.
Qed.

Lemma SetPending_ClearPending_last_wins_witness :
  covers NVIC_reset /\
  (exists s', NVIC_ClearPendingIRQ TIM5 NVIC_reset = Some (tt, s') /\
              (NVIC_SetPendingIRQ TIM5 >> NVIC_ClearPendingIRQ TIM5)
                NVIC_reset
              = Some (tt, s')) /\
  (exists s', NVIC_SetPendingIRQ TIM5 NVIC_reset = Some (tt, s') /\
              (NVIC_ClearPendingIRQ TIM5 >> NVIC_SetPendingIRQ TIM5)
                NVIC_reset
              = Some (tt, s')).
Proof.
  split; [covers_now |].
  apply (SetPending_ClearPending_last_wins TIM5 NVIC_reset). covers_now.
Defined.

(** X7: a second [NVIC_SetPriority] of the same identifier with a priority of
    at most 15 overwrites the first, whatever priority the first was
    given: the register block is as after the second call alone. *)
Theorem SetPriority_overwrites (IRQn : IRQn_Type) (p q : Z)
    (s : NVIC_RegDef_t) :
  covers s -> q <= 15 ->
  exists s', NVIC_SetPriority IRQn q s = Some (tt, s') /\
             (NVIC_SetPriority IRQn p >> NVIC_SetPriority IRQn q) s
             = Some (tt, s').
Proof.
  intros Hc Hq. eexists. split; [apply SetPriority_alter; exact Hc |].
  run2 SetPriority_alter SetPriority_alter.
  rewrite list_alter_alter_eq. do 3 f_equal.
  apply list_alter_ext; [| reflexivity]. intros w _. cbn.
  now apply IPR_after_overwrite.
Qed.

Lemma SetPriority_overwrites_witness :
  covers NVIC_reset /\ 3 <= 15 /\
  exists s', NVIC_SetPriority ADC 3 NVIC_reset = Some (tt, s') /\
             (NVIC_SetPriority ADC 12 >> NVIC_SetPriority ADC 3) NVIC_reset
             = Some (tt, s').
Proof.
  split; [covers_now |]. split; [lia |].
  apply (SetPriority_overwrites ADC 12 3 NVIC_reset); [covers_now | lia].
Defined.

(** X8: [NVIC_SetPriority] calls on two different identifiers commute, for
    any two priority arguments: both orders leave the same register
    block, also when the two fields lie in one register. *)
Theorem SetPriority_commutes (i j : IRQn_Type) (p q : Z)
    (s : NVIC_RegDef_t) :
  covers s -> i <> j ->
  exists s', (NVIC_SetPriority i p >> NVIC_SetPriority j q) s
             = Some (tt, s') /\
             (NVIC_SetPriority j q >> NVIC_SetPriority i p) s
             = Some (tt, s').
Proof.
  intros Hc Hne. eexists. split.
  - run2 SetPriority_alter SetPriority_alter. reflexivity.
  - run2 SetPriority_alter SetPriority_alter. do 3 f_equal.
    apply alter_swap. intros Hnat w.
    apply IPR_after_swap; [exact Hne |].
    pose proof (prioIndex_range i). pose proof (prioIndex_range j).
    apply Z2Nat.inj; lia.
Qed.

Lemma SetPriority_commutes_witness :
  covers NVIC_reset /\ EXTI0 <> EXTI1 /\
  exists s', (NVIC_SetPriority EXTI0 5 >> NVIC_SetPriority EXTI1 10)
               NVIC_reset
             = Some (tt, s') /\
             (NVIC_SetPriority EXTI1 10 >> NVIC_SetPriority EXTI0 5)
               NVIC_reset
             = Some (tt, s').
Proof.
  split; [covers_now |]. split; [discriminate |].
  apply (SetPriority_commutes EXTI0 EXTI1 5 10 NVIC_reset);
    [covers_now | discriminate].
Defined.

(** X9: calls on two different identifiers commute in the enable state: an
    enable and a disable, two enables and two disables leave the same
    register block in both orders, also when the two bits lie in one
    register. *)
Theorem Enable_Disable_commute (i j : IRQn_Type) (s : NVIC_RegDef_t) :
  covers s -> i <> j ->
  (exists s', (NVIC_EnableIRQ i >> NVIC_DisableIRQ j) s = Some (tt, s') /\
              (NVIC_DisableIRQ j >> NVIC_EnableIRQ i) s = Some (tt, s')) /\
  (exists s', (NVIC_EnableIRQ i >> NVIC_EnableIRQ j) s = Some (tt, s') /\
              (NVIC_EnableIRQ j >> NVIC_EnableIRQ i) s = Some (tt, s')) /\
  (exists s', (NVIC_DisableIRQ i >> NVIC_DisableIRQ j) s = Some (tt, s') /\
              (NVIC_DisableIRQ j >> NVIC_DisableIRQ i) s = Some (tt, s')).
Proof.
  intros Hc Hne.
  pose proof (regIndex_range i). pose proof (regIndex_range j).
  pose proof (bitPos_range i). pose proof (bitPos_range j).
  split; [| split]; eexists; split.
  - run2 EnableIRQ_alter DisableIRQ_alter. reflexivity.
  - run2 DisableIRQ_alter EnableIRQ_alter. do 3 f_equal.
    apply alter_swap. intros Hnat w. apply lor_ldiff_swap; try lia.
    destruct (locations_differ i j Hne) as [[Hreg | Hbit] _];
      [| exact Hbit].
    exfalso. apply Hreg. apply Z2Nat.inj; lia.
  - run2 EnableIRQ_alter EnableIRQ_alter. reflexivity.
  - run2 EnableIRQ_alter EnableIRQ_alter. do 3 f_equal.
    apply alter_swap. intros _ w. apply lor_swap.
  - run2 DisableIRQ_alter DisableIRQ_alter. reflexivity.
  - run2 DisableIRQ_alter DisableIRQ_alter. do 3 f_equal.
    apply alter_swap. intros _ w. apply ldiff_swap.
Qed.

Lemma Enable_Disable_commute_witness :
  covers NVIC_reset /\ TIM2 <> TIM3 /\
  (exists s', (NVIC_EnableIRQ TIM2 >> NVIC_DisableIRQ TIM3) NVIC_reset
              = Some (tt, s') /\
              (NVIC_DisableIRQ TIM3 >> NVIC_EnableIRQ TIM2) NVIC_reset
              = Some (tt, s')) /\
  (exists s', (NVIC_EnableIRQ TIM2 >> NVIC_EnableIRQ TIM3) NVIC_reset
              = Some (tt, s') /\
              (NVIC_EnableIRQ TIM3 >> NVIC_EnableIRQ TIM2) NVIC_reset
              = Some (tt, s')) /\
  (exists s', (NVIC_DisableIRQ TIM2 >> NVIC_DisableIRQ TIM3) NVIC_reset
              = Some (tt, s') /\
              (NVIC_DisableIRQ TIM3 >> NVIC_DisableIRQ TIM2) NVIC_reset
              = Some (tt, s')).
Proof.
  split; [covers_now |]. split; [discriminate |].
  apply (Enable_Disable_commute TIM2 TIM3 NVIC_reset);
    [covers_now | discriminate].
Defined.

(** ** One call as an update *)

Lemma call_shape (c : NVIC_call) (s : NVIC_RegDef_t) :
  covers s ->
  exists s',
    call c s = Some (tt, s') /\ covers s' /\
    match c with
    | CallEnableIRQ i =>
        s' = mkNVIC (alter (fun w => Z.lor w (Z.shiftl 1 (bitPos i)))
                           (Z.to_nat (regIndex i)) (nvic_enable s))
                    (nvic_pending s) (nvic_active s) (nvic_ipr s)
    | CallDisableIRQ i =>
        s' = mkNVIC (alter (fun w => Z.ldiff w (Z.shiftl 1 (bitPos i)))
                           (Z.to_nat (regIndex i)) (nvic_enable s))
                    (nvic_pending s) (nvic_active s) (nvic_ipr s)
    | CallSetPendingIRQ i =>
        s' = mkNVIC (nvic_enable s)
                    (alter (fun w => Z.lor w (Z.shiftl 1 (bitPos i)))
                           (Z.to_nat (regIndex i)) (nvic_pending s))
                    (nvic_active s) (nvic_ipr s)
    | CallClearPendingIRQ i =>
        s' = mkNVIC (nvic_enable s)
                    (alter (fun w => Z.ldiff w (Z.shiftl 1 (bitPos i)))
                           (Z.to_nat (regIndex i)) (nvic_pending s))
                    (nvic_active s) (nvic_ipr s)
    | CallSetPriority i p =>
        s' = mkNVIC (nvic_enable s) (nvic_pending s) (nvic_active s)
                    (alter (IPR_after i p) (Z.to_nat (prioIndex i))
                           (nvic_ipr s))
    | _ => s' = s
    end.
Proof.
  intros Hc. destruct c as [i | i | i | i | i | i p | i | i]; cbn [call].
  - eexists. split; [apply EnableIRQ_alter; exact Hc |].
    split; [covers_kept | reflexivity].
  - eexists. split; [apply DisableIRQ_alter; exact Hc |].
    split; [covers_kept | reflexivity].
  - eexists. split; [apply SetPendingIRQ_alter; exact Hc |].
    split; [covers_kept | reflexivity].
  - eexists. split; [apply ClearPendingIRQ_alter; exact Hc |].
    split; [covers_kept | reflexivity].
  - destruct (covers_pending s i Hc) as [w Hw].
    exists s. unfold bind. rewrite (GetPendingIRQ_run i s w Hw). auto.
  - eexists. split; [apply SetPriority_alter; exact Hc |].
    split; [covers_kept | reflexivity].
  - destruct (covers_ipr s i Hc) as [w Hw].
    exists s. unfold bind. rewrite (GetPriority_run i s w Hw). auto.
  - destruct (covers_active s i Hc) as [w Hw].
    exists s. unfold bind. rewrite (GetActive_run i s w Hw). auto.
Qed.

Lemma bit_at_alter_other (f : Z -> Z) (l : list Z) (n n' k : Z) :
  0 <= n -> 0 <= n' ->
  (n = n' -> forall w, Z.testbit (f w) k = Z.testbit w k) ->
  bit_at (alter f (Z.to_nat n) l) n' k = bit_at l n' k.
Proof.
  intros Hn Hn' Hf. unfold bit_at. rewrite list_lookup_alter.
  destruct (decide (Z.to_nat n = Z.to_nat n')) as [Heq | Hne];
    [| reflexivity].
  apply Z2Nat.inj in Heq; [| lia | lia]. subst n'.
  destruct (l !! Z.to_nat n) as [w |]; cbn; [now apply Hf | reflexivity].
Qed.

Lemma IPR_after_other_field (i j : IRQn_Type) (p w : Z) :
  i <> j -> prioIndex j = prioIndex i ->
  Z.land (Z.shiftr (IPR_after j p w) (bytePos i + 4)) 0x0F
  = Z.land (Z.shiftr w (bytePos i + 4)) 0x0F.
Proof.
  intros Hne Hidx. unfold IPR_after.
  destruct (15 <? p); [reflexivity |].
  pose proof (same_register_bytes i j Hne (eq_sym Hidx)) as Hbyte.
  pose proof (Z.mod_pos_bound (IRQn_value i) 4).
  pose proof (Z.mod_pos_bound (IRQn_value j) 4).
  apply (IPR_set_clear_other w (bytePos j) (bytePos i) p
           (IRQn_value j mod 4) (IRQn_value i mod 4));
    (reflexivity || lia || congruence).
Qed.

Lemma IPR_after_frame (i : IRQn_Type) (p w k : Z) :
  0 <= k < 32 -> ~ (bytePos i + 4 <= k < bytePos i + 8) ->
  Z.testbit (IPR_after i p w) k = Z.testbit w k.
Proof.
  intros Hk Hout. unfold IPR_after. destruct (15 <? p); [reflexivity |].
  apply IPR_set_clear_frame; [apply bytePos_range | lia | exact Hout].
Qed.

(** ** What survives other calls *)

Lemma call_keeps_priority (i : IRQn_Type) (c : NVIC_call)
    (s : NVIC_RegDef_t) (v : Z) :
  covers s -> ~ sets_priority_of i c ->
  NVIC_GetPriority i s = Some (v, s) ->
  exists s', call c s = Some (tt, s') /\ covers s' /\
             NVIC_GetPriority i s' = Some (v, s').
Proof.
  intros Hc Hns Hget. destruct (covers_ipr s i Hc) as [w Hw].
  rewrite (GetPriority_run i s w Hw) in Hget. injection Hget as <-.
  destruct (call_shape c s Hc) as (s' & Hrun & Hc' & Hshape).
  exists s'. split; [exact Hrun |]. split; [exact Hc' |].
  destruct c as [j | j | j | j | j | j p | j | j]; subst s';
    try (apply GetPriority_run; exact Hw).
  cbn [sets_priority_of] in Hns.
  destruct (decide (Z.to_nat (prioIndex j) = Z.to_nat (prioIndex i)))
    as [Heq | Hneq].
  - erewrite GetPriority_run.
    2:{ cbn [nvic_ipr]. rewrite <- Heq, list_lookup_alter_eq, Heq, Hw.
        reflexivity. }
    do 2 f_equal. apply IPR_after_other_field; [congruence |].
    pose proof (prioIndex_range i). pose proof (prioIndex_range j).
    apply Z2Nat.inj; lia.
  - apply GetPriority_run. cbn [nvic_ipr].
    now rewrite list_lookup_alter_ne.
Qed.

(** X10: the priority of an identifier, as [NVIC_GetPriority] returns it,
    survives every sequence of driver calls that contains no
    [NVIC_SetPriority] of that identifier. *)
Theorem priority_persists (IRQn : IRQn_Type) (cs : list NVIC_call)
    (s : NVIC_RegDef_t) (v : Z) :
  covers s -> Forall (fun c => ~ sets_priority_of IRQn c) cs ->
  NVIC_GetPriority IRQn s = Some (v, s) ->
  exists s', calls cs s = Some (tt, s') /\
             NVIC_GetPriority IRQn s' = Some (v, s').
Proof.
  intros Hc Hcs. revert s Hc.
  induction Hcs as [| c cs Hns _ IH]; intros s Hc Hget.
  - exists s. split; [reflexivity | exact Hget].
  - destruct (call_keeps_priority IRQn c s v Hc Hns Hget)
      as (s1 & Hrun & Hc1 & Hget1).
    destruct (IH s1 Hc1 Hget1) as (s2 & Hrest & Hget2).
    exists s2. split; [| exact Hget2].
    cbn [calls]. unfold bind. rewrite Hrun. exact Hrest.
Qed.

Lemma priority_persists_witness :
  covers NVIC_reset /\
  Forall (fun c => ~ sets_priority_of EXTI0 c)
         [CallEnableIRQ EXTI0; CallSetPriority EXTI1 10;
          CallSetPendingIRQ EXTI0; CallSetPriority EXTI2 200] /\
  NVIC_GetPriority EXTI0 NVIC_reset = Some (0, NVIC_reset) /\
  exists s',
    calls [CallEnableIRQ EXTI0; CallSetPriority EXTI1 10;
           CallSetPendingIRQ EXTI0; CallSetPriority EXTI2 200] NVIC_reset
    = Some (tt, s') /\
    NVIC_GetPriority EXTI0 s' = Some (0, s').
Proof.
  assert (Hcs : Forall (fun c => ~ sets_priority_of EXTI0 c)
                  [CallEnableIRQ EXTI0; CallSetPriority EXTI1 10;
                   CallSetPendingIRQ EXTI0; CallSetPriority EXTI2 200]).
  { repeat constructor; cbn; (exact id || discriminate). }
  split; [covers_now |]. split; [exact Hcs |]. split; [reflexivity |].
  apply (priority_persists EXTI0 _ NVIC_reset 0);
    [covers_now | exact Hcs | reflexivity].
Defined.

Lemma call_keeps_enable_bit (i : IRQn_Type) (c : NVIC_call)
    (s : NVIC_RegDef_t) :
  covers s -> ~ switches_enable_of i c ->
  exists s', call c s = Some (tt, s') /\ covers s' /\
             bit_at (nvic_enable s') (regIndex i) (bitPos i)
             = bit_at (nvic_enable s) (regIndex i) (bitPos i).
Proof.
  intros Hc Hns. destruct (call_shape c s Hc) as (s' & Hrun & Hc' & Hshape).
  exists s'. split; [exact Hrun |]. split; [exact Hc' |].
  pose proof (regIndex_range i). pose proof (bitPos_range i).
  destruct c as [j | j | j | j | j | j p | j | j]; subst s';
    try reflexivity; cbn [switches_enable_of nvic_enable] in *;
    pose proof (regIndex_range j); pose proof (bitPos_range j);
    (apply bit_at_alter_other; [lia | lia |]); intros Hreg w;
    (destruct (locations_differ j i Hns) as [[Hr | Hb] _];
     [contradiction |]); bits.
Qed.

(** X11: the enable bit of an identifier survives every sequence of driver
    calls that contains no [NVIC_EnableIRQ] and no [NVIC_DisableIRQ] of
    that identifier. *)
Theorem enable_bit_persists (IRQn : IRQn_Type) (cs : list NVIC_call)
    (s : NVIC_RegDef_t) :
  covers s -> Forall (fun c => ~ switches_enable_of IRQn c) cs ->
  exists s', calls cs s = Some (tt, s') /\
             bit_at (nvic_enable s') (regIndex IRQn) (bitPos IRQn)
             = bit_at (nvic_enable s) (regIndex IRQn) (bitPos IRQn).
Proof.
  intros Hc Hcs. revert s Hc.
  induction Hcs as [| c cs Hns _ IH]; intros s Hc.
  - exists s. split; reflexivity.
  - destruct (call_keeps_enable_bit IRQn c s Hc Hns)
      as (s1 & Hrun & Hc1 & Hbit1).
    destruct (IH s1 Hc1) as (s2 & Hrest & Hbit2).
    exists s2. split; [| congruence].
    cbn [calls]. unfold bind. rewrite Hrun. exact Hrest.
Qed.

Lemma enable_bit_persists_witness :
  covers NVIC_reset /\
  Forall (fun c => ~ switches_enable_of EXTI0 c)
         [CallEnableIRQ EXTI1; CallSetPriority EXTI0 3;
          CallDisableIRQ RCC; CallSetPendingIRQ EXTI0] /\
  exists s',
    calls [CallEnableIRQ EXTI1; CallSetPriority EXTI0 3;
           CallDisableIRQ RCC; CallSetPendingIRQ EXTI0] NVIC_reset
    = Some (tt, s') /\
    bit_at (nvic_enable s') (regIndex EXTI0) (bitPos EXTI0)
    = bit_at (nvic_enable NVIC_reset) (regIndex EXTI0) (bitPos EXTI0).
Proof.
  assert (Hcs : Forall (fun c => ~ switches_enable_of EXTI0 c)
                  [CallEnableIRQ EXTI1; CallSetPriority EXTI0 3;
                   CallDisableIRQ RCC; CallSetPendingIRQ EXTI0]).
  { repeat constructor; cbn; (exact id || discriminate). }
  split; [covers_now |]. split; [exact Hcs |].
  apply (enable_bit_persists EXTI0 _ NVIC_reset); [covers_now | exact Hcs].
Defined.

Lemma call_keeps_pending_bit (i : IRQn_Type) (c : NVIC_call)
    (s : NVIC_RegDef_t) :
  covers s -> ~ switches_pending_of i c ->
  exists s', call c s = Some (tt, s') /\ covers s' /\
             bit_at (nvic_pending s') (regIndex i) (bitPos i)
             = bit_at (nvic_pending s) (regIndex i) (bitPos i).
Proof.
  intros Hc Hns. destruct (call_shape c s Hc) as (s' & Hrun & Hc' & Hshape).
  exists s'. split; [exact Hrun |]. split; [exact Hc' |].
  pose proof (regIndex_range i). pose proof (bitPos_range i).
  destruct c as [j | j | j | j | j | j p | j | j]; subst s';
    try reflexivity; cbn [switches_pending_of nvic_pending] in *;
    pose proof (regIndex_range j); pose proof (bitPos_range j);
    (apply bit_at_alter_other; [lia | lia |]); intros Hreg w;
    (destruct (locations_differ j i Hns) as [[Hr | Hb] _];
     [contradiction |]); bits.
Qed.

(** X12: the pending bit of an identifier survives every sequence of driver
    calls that contains no [NVIC_SetPendingIRQ] and no
    [NVIC_ClearPendingIRQ] of that identifier; so does the value
    [NVIC_GetPendingIRQ] returns for it. *)
Theorem pending_bit_persists (IRQn : IRQn_Type) (cs : list NVIC_call)
    (s : NVIC_RegDef_t) :
  covers s -> Forall (fun c => ~ switches_pending_of IRQn c) cs ->
  exists s' v,
    calls cs s = Some (tt, s') /\
    bit_at (nvic_pending s') (regIndex IRQn) (bitPos IRQn)
    = bit_at (nvic_pending s) (regIndex IRQn) (bitPos IRQn) /\
    NVIC_GetPendingIRQ IRQn s = Some (v, s) /\
    NVIC_GetPendingIRQ IRQn s' = Some (v, s').
Proof.
  intros Hc Hcs.
  assert (Hseq : exists s', calls cs s = Some (tt, s') /\ covers s' /\
             bit_at (nvic_pending s') (regIndex IRQn) (bitPos IRQn)
             = bit_at (nvic_pending s) (regIndex IRQn) (bitPos IRQn)).
  { revert s Hc. induction Hcs as [| c cs Hns _ IH]; intros s Hc.
    - exists s. split; [reflexivity | split; [exact Hc | reflexivity]].
    - destruct (call_keeps_pending_bit IRQn c s Hc Hns)
        as (s1 & Hrun & Hc1 & Hbit1).
      destruct (IH s1 Hc1) as (s2 & Hrest & Hc2 & Hbit2).
      exists s2. split; [| split; [exact Hc2 | congruence]].
      cbn [calls]. unfold bind. rewrite Hrun. exact Hrest. }
  destruct Hseq as (s' & Hrun & Hc' & Hbit).
  exists s'. eexists. split; [exact Hrun |]. split; [exact Hbit |].
  split; [apply GetPendingIRQ_bit_value; exact Hc |].
  rewrite (GetPendingIRQ_bit_value IRQn s' Hc'), Hbit. reflexivity.
Qed.

Lemma pending_bit_persists_witness :
  covers NVIC_reset /\
  Forall (fun c => ~ switches_pending_of EXTI0 c)
         [CallSetPendingIRQ EXTI1; CallEnableIRQ EXTI0;
          CallClearPendingIRQ RCC; CallSetPriority EXTI0 3] /\
  exists s' v,
    calls [CallSetPendingIRQ EXTI1; CallEnableIRQ EXTI0;
           CallClearPendingIRQ RCC; CallSetPriority EXTI0 3] NVIC_reset
    = Some (tt, s') /\
    bit_at (nvic_pending s') (regIndex EXTI0) (bitPos EXTI0)
    = bit_at (nvic_pending NVIC_reset) (regIndex EXTI0) (bitPos EXTI0) /\
    NVIC_GetPendingIRQ EXTI0 NVIC_reset = Some (v, NVIC_reset) /\
    NVIC_GetPendingIRQ EXTI0 s' = Some (v, s').
Proof.
  assert (Hcs : Forall (fun c => ~ switches_pending_of EXTI0 c)
                  [CallSetPendingIRQ EXTI1; CallEnableIRQ EXTI0;
                   CallClearPendingIRQ RCC; CallSetPriority EXTI0 3]).
  { repeat constructor; cbn; (exact id || discriminate). }
  split; [covers_now |]. split; [exact Hcs |].
  apply (pending_bit_persists EXTI0 _ NVIC_reset); [covers_now | exact Hcs].
Defined.

(** ** The bits a priority write can change *)

(** X13: [NVIC_SetPriority], with any priority argument, changes at most the
    four bits [(id%4)*8+4 .. (id%4)*8+7] of the priority register [id/4]:
    every other bit of that register, the lower nibble of the identifier's
    own field included, and every other priority register is as it
    was. *)
Theorem SetPriority_writes_one_nibble (IRQn : IRQn_Type) (p : Z)
    (s : NVIC_RegDef_t) :
  covers s ->
  exists s',
    NVIC_SetPriority IRQn p s = Some (tt, s') /\
    forall n k,
      0 <= n -> 0 <= k < 32 ->
      ~ (n = prioIndex IRQn /\ bytePos IRQn + 4 <= k < bytePos IRQn + 8) ->
      bit_at (nvic_ipr s') n k = bit_at (nvic_ipr s) n k.
Proof.
  intros Hc. eexists. split; [apply SetPriority_alter; exact Hc |].
  intros n k Hn Hk Hout. cbn [nvic_ipr].
  pose proof (prioIndex_range IRQn).
  apply bit_at_alter_other; [lia | lia |]. intros Heq w.
  apply IPR_after_frame; [exact Hk |]. intros Hin. apply Hout. now split.
Qed.

Lemma SetPriority_writes_one_nibble_witness :
  covers NVIC_reset /\
  exists s',
    NVIC_SetPriority EXTI1 10 NVIC_reset = Some (tt, s') /\
    forall n k,
      0 <= n -> 0 <= k < 32 ->
      ~ (n = prioIndex EXTI1 /\ bytePos EXTI1 + 4 <= k < bytePos EXTI1 + 8) ->
      bit_at (nvic_ipr s') n k = bit_at (nvic_ipr NVIC_reset) n k.
Proof.
  split; [covers_now |].
  apply (SetPriority_writes_one_nibble EXTI1 10 NVIC_reset). covers_now.
Defined.

(** ** Registers stay 32 bits wide *)

Lemma word32_u32 (x : Z) : word32 (u32 x).
Proof. unfold word32, u32. apply Z.mod_pos_bound. lia. Qed.

Lemma word32_fix (w : Z) : word32 w -> u32 w = w.
Proof. intros Hw. unfold u32. apply Z.mod_small. exact Hw. Qed.

Lemma word32_lor_bit (w b : Z) :
  word32 w -> 0 <= b <= 31 -> word32 (Z.lor w (Z.shiftl 1 b)).
Proof.
  intros Hw Hb. apply word32_fix in Hw.
  replace (Z.lor w (Z.shiftl 1 b)) with (u32 (Z.lor w (Z.shiftl 1 b)));
    [apply word32_u32 |].
  rewrite <- Hw. apply Z.bits_inj'; intros k Hk. bits.
Qed.

Lemma word32_ldiff (w m : Z) : word32 w -> word32 (Z.ldiff w m).
Proof.
  intros Hw. apply word32_fix in Hw.
  replace (Z.ldiff w m) with (u32 (Z.ldiff w m)); [apply word32_u32 |].
  rewrite <- Hw. apply Z.bits_inj'; intros k Hk. bits.
Qed.

Lemma word32_IPR_after (i : IRQn_Type) (p w : Z) :
  word32 w -> word32 (IPR_after i p w).
Proof.
  intros Hw. unfold IPR_after. destruct (15 <? p); [exact Hw |].
  apply word32_u32.
Qed.

Lemma call_keeps_block32 (c : NVIC_call) (s : NVIC_RegDef_t) :
  covers s -> block32 s ->
  exists s', call c s = Some (tt, s') /\ covers s' /\ block32 s' /\
             length (nvic_enable s') = length (nvic_enable s) /\
             length (nvic_pending s') = length (nvic_pending s) /\
             length (nvic_active s') = length (nvic_active s) /\
             length (nvic_ipr s') = length (nvic_ipr s).
Proof.
  intros Hc (He & Hp & Ha & Hi).
  destruct (call_shape c s Hc) as (s' & Hrun & Hc' & Hshape).
  exists s'. split; [exact Hrun |]. split; [exact Hc' |].
  destruct c as [j | j | j | j | j | j p | j | j]; subst s';
    unfold block32; cbn [nvic_enable nvic_pending nvic_active nvic_ipr];
    rewrite ?length_alter; repeat split; try assumption;
    apply Forall_alter; try assumption; intros x _ Hx;
    first [ apply word32_lor_bit; [exact Hx | apply bitPos_range]
          | apply word32_ldiff; exact Hx
          | apply word32_IPR_after; exact Hx ].
Qed.

(** X14: on a register block whose words all lie in [0, 2^32), every sequence
    of driver calls returns and leaves a block of the same array sizes
    whose words all lie in [0, 2^32). *)
Theorem calls_keep_block32 (cs : list NVIC_call) (s : NVIC_RegDef_t) :
  covers s -> block32 s ->
  exists s', calls cs s = Some (tt, s') /\ block32 s' /\
             length (nvic_enable s') = length (nvic_enable s) /\
             length (nvic_pending s') = length (nvic_pending s) /\
             length (nvic_active s') = length (nvic_active s) /\
             length (nvic_ipr s') = length (nvic_ipr s).
Proof.
  revert s. induction cs as [| c cs IH]; intros s Hc Hb.
  - exists s. repeat split; apply Hb.
  - destruct (call_keeps_block32 c s Hc Hb)
      as (s1 & Hrun & Hc1 & Hb1 & Le & Lp & La & Li).
    destruct (IH s1 Hc1 Hb1) as (s2 & Hrest & Hb2 & Le2 & Lp2 & La2 & Li2).
    exists s2. split.
    + cbn [calls]. unfold bind. rewrite Hrun. exact Hrest.
    + split; [exact Hb2 |]. repeat split; congruence.
Qed.

Lemma calls_keep_block32_witness :
  covers NVIC_reset /\ block32 NVIC_reset /\
  exists s',
    calls [CallEnableIRQ FMPI2C1_error; CallSetPriority FMPI2C1_error 15;
           CallSetPendingIRQ I2C1_EV; CallDisableIRQ WWDG] NVIC_reset
    = Some (tt, s') /\ block32 s' /\
    length (nvic_enable s') = length (nvic_enable NVIC_reset) /\
    length (nvic_pending s') = length (nvic_pending NVIC_reset) /\
    length (nvic_active s') = length (nvic_active NVIC_reset) /\
    length (nvic_ipr s') = length (nvic_ipr NVIC_reset).
Proof.
  assert (Hb : block32 NVIC_reset).
  { unfold block32, NVIC_reset, word32. cbn.
    repeat split; repeat constructor; lia. }
  split; [covers_now |]. split; [exact Hb |].
  apply (calls_keep_block32 _ NVIC_reset); [covers_now | exact Hb].
Defined.
